(** * Tutorial 5: Adversarial Autoencoder

    A shallow embedding of the notebook
    [tutorials/Tutorial 5. Adversarial Autoencoder.ipynb]: the two model
    classes, the two loss classes and the top-level script, together with
    the properties of them that the specification states.

    The notebook is glue code over PyTorch and TorchGAN.  Those libraries
    are an interface here ([Torch]); the notebook's functions are written
    once against that interface.  Its symbolic instance ([Sym]) runs them on
    tensors that carry a shape and the term of library calls that produced
    them, with the shape rules and the exceptions of [torch.nn]. *)

From Stdlib Require Import ZArith QArith List String Bool Lia.
From stdpp Require Import base gmap strings list pretty sorting.

Open Scope Z_scope.

(** ** Python exceptions and fallible computations *)

(** An exception object: its class name and its message. *)
Record exn := mkExn { exn_class : string; exn_msg : string }.

Definition RuntimeError (msg : string) : exn := mkExn "RuntimeError" msg.
Definition ValueError (msg : string) : exn := mkExn "ValueError" msg.
Definition IndexError (msg : string) : exn := mkExn "IndexError" msg.
Definition TypeError (msg : string) : exn := mkExn "TypeError" msg.

Inductive result (A : Type) : Type :=
| Ok (a : A)
| Raise (e : exn).
Arguments Ok {A} a.
Arguments Raise {A} e.

Definition bind {A B : Type} (c : result A) (k : A -> result B) : result B :=
  match c with
  | Ok a => k a
  | Raise e => Raise e
  end.

Notation "'let*' x ':=' c 'in' k" := (bind c (fun x => k))
  (at level 10, x pattern, c at level 100, k at level 200).

(** ** Python [while] loops

    [while fuel cond body s] runs [while cond(s): s = body(s)] for at most
    [fuel] tests of the condition; [None] means the fuel ran out. *)
Fixpoint while {S : Type} (fuel : nat) (cond : S -> bool) (body : S -> S)
    (s : S) : option S :=
  match fuel with
  | O => None
  | Datatypes.S fuel' =>
      if cond s then while fuel' cond body (body s) else Some s
  end.

(** ** [torch.nn] modules, as the constructors describe them *)

Set Warnings "-register-all".
Inductive module : Type :=
| Conv2d (in_channels out_channels kernel_size stride padding : Z)
| ConvTranspose2d
    (in_channels out_channels kernel_size stride padding output_padding : Z)
| BatchNorm2d (num_features : Z)
| BatchNorm1d (num_features : Z)
| Linear (in_features out_features : Z)
| LeakyReLU (negative_slope : Q)
| Tanh
| Sequential (children : list module).

(** The default argument [nonlinearity=nn.LeakyReLU(0.2)]. *)
Definition default_nonlinearity : module := LeakyReLU 0.2.

(** ** The library interface the notebook is written against *)

Class Torch (tensor : Type) : Type := {
  (** [self.<attr>(t)]: [nn.Module.__call__] of the submodule stored in
      attribute [attr], in training or evaluation mode *)
  module_call : string -> bool -> module -> tensor -> result tensor;
  (** [t.size(d)] *)
  tensor_size : tensor -> Z -> result Z;
  (** [t.view(dims...)] *)
  tensor_view : tensor -> list Z -> result tensor;
  (** [F.mse_loss(input, target)] *)
  mse_loss : tensor -> tensor -> result tensor;
  (** [F.binary_cross_entropy_with_logits(input, target)] *)
  binary_cross_entropy_with_logits : tensor -> tensor -> result tensor;
  (** [torch.ones_like(t)], [torch.zeros_like(t)] *)
  ones_like : tensor -> tensor;
  zeros_like : tensor -> tensor;
  (** [c * t] for a Python float [c] *)
  float_mul : Q -> tensor -> tensor;
  (** [a += b] on tensors; the result is the updated [a] *)
  tensor_iadd : tensor -> tensor -> result tensor;
}.

(** What a call of [forward] hands back: Python returns either a tuple of
    two tensors or a single tensor. *)
Inductive py_value (tensor : Type) : Type :=
| Tuple2 (a b : tensor)
| Single (a : tensor).
Arguments Tuple2 {tensor} a b.
Arguments Single {tensor} a.

(** ** class AdversarialAutoencoderGenerator(models.Generator) *)

Module AdversarialAutoencoderGenerator.

(** [encoding_dims] is the attribute the base class constructor stores;
    [training] is the mode flag of [nn.Module]. *)
Record t : Type := {
  encoding_dims : Z;
  encoder : module;
  encoder_fc : module;
  decoder_fc : module;
  decoder : module;
  training : bool;
}.

(** State of the two layer-building loops: the list under construction,
    [size] and [channels]. *)
Definition loop_state : Type := (list module * Z * Z)%type.

Definition encoder_cond (s : loop_state) : bool :=
  let '(_, size, _) := s in 1 <? size.

Definition encoder_body (nonlinearity : module) (s : loop_state)
  : loop_state :=
  let '(encoder, size, channels) := s in
  (encoder ++ [Sequential [Conv2d channels (channels * 4) 5 4 2;
                           BatchNorm2d (channels * 4);
                           nonlinearity]],
   size / 4,
   channels * 4).

Definition decoder_cond (input_size : Z) (s : loop_state) : bool :=
  let '(_, size, _) := s in size <? input_size / 2.

Definition decoder_body (nonlinearity : module) (s : loop_state)
  : loop_state :=
  let '(decoder, size, channels) := s in
  (decoder ++ [Sequential [ConvTranspose2d channels (channels * 4) 5 4 2 3;
                           BatchNorm2d (channels * 4);
                           nonlinearity]],
   size * 4,
   channels * 4).

Definition encoder_init (input_size input_channels step_channels : Z)
    (nonlinearity : module) : loop_state :=
  ([Sequential [Conv2d input_channels step_channels 5 2 2; nonlinearity]],
   input_size / 2,
   step_channels).

Definition decoder_init (step_channels : Z) : loop_state :=
  ([], 1, step_channels).

(** [__init__]; a freshly constructed [nn.Module] is in training mode.
    The layer constructors are taken to return, as they do for
    non-negative widths: [None] is a loop that ran out of fuel, not an
    exception of [nn.Conv2d] or [nn.Linear]. *)
Definition __init__ (fuel : nat)
    (encoding_dims input_size input_channels step_channels : Z)
    (nonlinearity : module) : option t :=
  match while fuel encoder_cond (encoder_body nonlinearity)
          (encoder_init input_size input_channels step_channels
             nonlinearity) with
  | None => None
  | Some (encoder, _, channels) =>
      match while fuel (decoder_cond input_size)
              (decoder_body nonlinearity) (decoder_init step_channels) with
      | None => None
      | Some (decoder, _, channels') =>
          Some {| encoding_dims := encoding_dims;
                  encoder := Sequential encoder;
                  encoder_fc := Linear channels encoding_dims;
                  decoder_fc := Linear encoding_dims step_channels;
                  decoder :=
                    Sequential
                      (decoder ++
                       [ConvTranspose2d channels' input_channels 5 2 2 1]);
                  training := true |}
      end
  end.

(** [nn.Module.train(mode)] and [nn.Module.eval()] only set the flag. *)
Definition train (mode : bool) (self : t) : t :=
  {| encoding_dims := encoding_dims self;
     encoder := encoder self;
     encoder_fc := encoder_fc self;
     decoder_fc := decoder_fc self;
     decoder := decoder self;
     training := mode |}.

Definition eval (self : t) : t := train false self.

Section Methods.
Context {tensor : Type} `{Torch tensor}.

Definition sample (self : t) (noise : tensor) : result tensor :=
  let* noise := module_call "decoder_fc" (training self)
                  (decoder_fc self) noise in
  let* c := tensor_size noise 1 in
  let* noise := tensor_view noise [-1; c; 1; 1] in
  module_call "decoder" (training self) (decoder self) noise.

Definition forward (self : t) (x : tensor) : result (py_value tensor) :=
  if training self then
    let* encoding := module_call "encoder" (training self)
                       (encoder self) x in
    let* s1 := tensor_size encoding 1 in
    let* s2 := tensor_size encoding 2 in
    let* s3 := tensor_size encoding 3 in
    let* flat := tensor_view encoding [-1; s1 * s2 * s3] in
    let* encoding := module_call "encoder_fc" (training self)
                       (encoder_fc self) flat in
    let* recon := sample self encoding in
    Ok (Tuple2 recon encoding)
  else
    let* r := sample self x in
    Ok (Single r).
End Methods.

End AdversarialAutoencoderGenerator.

(** ** class AdversarialAutoencoderDiscriminator(models.Discriminator) *)

Module AdversarialAutoencoderDiscriminator.

Record t : Type := {
  input_dims : Z;
  model : module;
  training : bool;
}.

Definition loop_state : Type := (list module * Z)%type.

Definition model_cond (s : loop_state) : bool :=
  let '(_, size) := s in 16 <? size.

Definition model_body (nonlinearity : module) (s : loop_state)
  : loop_state :=
  let '(model, size) := s in
  (model ++ [Sequential [Linear size (size / 2);
                         BatchNorm1d (size / 2);
                         nonlinearity]],
   size / 2).

Definition model_init (input_dims : Z) (nonlinearity : module)
  : loop_state :=
  ([Sequential [Linear input_dims (input_dims / 2); nonlinearity]],
   input_dims / 2).

(** [__init__]; as for the generator, [nn.Linear] is taken to return, as
    it does for [input_dims >= 1]. *)
Definition __init__ (fuel : nat) (input_dims : Z) (nonlinearity : module)
  : option t :=
  match while fuel model_cond (model_body nonlinearity)
          (model_init input_dims nonlinearity) with
  | None => None
  | Some (model, size) =>
      Some {| input_dims := input_dims;
              model := Sequential (model ++ [Linear size 1]);
              training := true |}
  end.

Definition train (mode : bool) (self : t) : t :=
  {| input_dims := input_dims self;
     model := model self;
     training := mode |}.

Definition eval (self : t) : t := train false self.

Section Methods.
Context {tensor : Type} `{Torch tensor}.

Definition forward (self : t) (x : tensor) : result tensor :=
  module_call "model" (training self) (model self) x.
End Methods.

End AdversarialAutoencoderDiscriminator.

(** ** Symbolic tensors

    A symbolic tensor is a shape ([torch.Size]) and the term of library
    calls that computed it from the inputs. *)

Inductive expr : Type :=
| Input (name : string)
| Randn (size : list Z)
| Call (attr : string) (x : expr)
| View (dims : list Z) (x : expr)
| Unbind (i : nat) (x : expr)
| MseLoss (input target : expr)
| BCEWithLogits (input target : expr)
| OnesLike (x : expr)
| ZerosLike (x : expr)
| Scale (c : Q) (x : expr)
| Plus (a b : expr).

Record sym : Type := mkSym { shape : list Z; term : expr }.

Definition numel (sh : list Z) : Z := fold_right Z.mul 1 sh.

(** *** Shape rules of the [torch.nn] layers

    Output sizes are the ones documented for each layer; [/] is floor
    division, as Python's [//] is for a positive divisor.  The rules are
    those of layers with positive channel counts and widths: a layer with
    zero channels is rejected by the library when it is applied, which
    these rules do not model, so the properties of [forward] and [sample]
    are stated for positive widths. *)

Definition conv_out (h k s p : Z) : Z := (h + 2 * p - k) / s + 1.

Definition conv_transpose_out (h k s p op : Z) : Z :=
  (h - 1) * s - 2 * p + (k - 1) + op + 1.

Definition conv2d_shape (cin cout k s p : Z) (sh : list Z)
  : result (list Z) :=
  let conv (c h w : Z) (batch : list Z) :=
    if decide (c = cin) then
      if decide (k <= h + 2 * p /\ k <= w + 2 * p) then
        Ok (batch ++ [cout; conv_out h k s p; conv_out w k s p])
      else
        Raise (RuntimeError
                 "Kernel size can't be greater than actual input size")
    else
      Raise (RuntimeError
               "conv2d: input channels do not match the weight") in
  match sh with
  | [n; c; h; w] => conv c h w [n]
  | [c; h; w] => conv c h w []
  | _ =>
    Raise (RuntimeError
             "Expected 3D (unbatched) or 4D (batched) input to conv2d")
  end.

Definition conv_transpose2d_shape (cin cout k s p op : Z) (sh : list Z)
  : result (list Z) :=
  let conv (c h w : Z) (batch : list Z) :=
    if decide (c = cin) then
      if decide (op < s) then
        if decide (0 < conv_transpose_out h k s p op
                   /\ 0 < conv_transpose_out w k s p op) then
          Ok (batch ++ [cout; conv_transpose_out h k s p op;
                        conv_transpose_out w k s p op])
        else Raise (RuntimeError "conv_transpose2d: output size is too small")
      else
        Raise (RuntimeError
                 "output padding must be smaller than either stride or dilation")
    else
      Raise (RuntimeError
               "conv_transpose2d: input channels do not match the weight") in
  match sh with
  | [n; c; h; w] => conv c h w [n]
  | [c; h; w] => conv c h w []
  | _ =>
    Raise (RuntimeError
             "Expected 3D (unbatched) or 4D (batched) input to conv_transpose2d")
  end.

(** [torch.nn.functional._verify_batch_size], called by [F.batch_norm] in
    training mode only: the batch statistics need more than one value per
    channel. *)
Definition verify_batch_size (training : bool) (sh : list Z) : result unit :=
  match sh with
  | n :: _ :: rest =>
      if training && bool_decide (n * numel rest = 1) then
        Raise (ValueError
                 "Expected more than 1 value per channel when training")
      else Ok tt
  | _ => Ok tt
  end.

Definition batch_norm_shape (training : bool) (num_features : Z)
    (sh : list Z) : result (list Z) :=
  let* _ := verify_batch_size training sh in
  match sh with
  | _ :: c :: _ =>
      if decide (c = num_features) then Ok sh
      else
        Raise (RuntimeError
                 "running_mean should contain as many elements as the input has channels")
  | _ => Ok sh
  end.

Definition batch_norm2d_shape (training : bool) (num_features : Z)
    (sh : list Z) : result (list Z) :=
  match sh with
  | [_; _; _; _] => batch_norm_shape training num_features sh
  | _ => Raise (ValueError "expected 4D input")
  end.

Definition batch_norm1d_shape (training : bool) (num_features : Z)
    (sh : list Z) : result (list Z) :=
  match sh with
  | [_; _] | [_; _; _] => batch_norm_shape training num_features sh
  | _ => Raise (ValueError "expected 2D or 3D input")
  end.

Definition linear_shape (in_features out_features : Z) (sh : list Z)
  : result (list Z) :=
  match rev sh with
  | [] => Raise (RuntimeError "linear: input must have at least one dimension")
  | d :: batch_rev =>
      if decide (d = in_features) then Ok (rev batch_rev ++ [out_features])
      else Raise (RuntimeError "mat1 and mat2 shapes cannot be multiplied")
  end.

(** [nn.Module.__call__] on shapes; [nn.Sequential] feeds each child the
    output of the one before it. *)
Fixpoint module_shape (training : bool) (m : module) (sh : list Z)
    {struct m} : result (list Z) :=
  match m with
  | Conv2d cin cout k s p => conv2d_shape cin cout k s p sh
  | ConvTranspose2d cin cout k s p op =>
      conv_transpose2d_shape cin cout k s p op sh
  | BatchNorm2d c => batch_norm2d_shape training c sh
  | BatchNorm1d c => batch_norm1d_shape training c sh
  | Linear i o => linear_shape i o sh
  | LeakyReLU _ => Ok sh
  | Tanh => Ok sh
  | Sequential children =>
      (fix run (ms : list module) (sh : list Z) : result (list Z) :=
         match ms with
         | [] => Ok sh
         | m' :: ms' =>
             let* sh' := module_shape training m' sh in run ms' sh'
         end) children sh
  end.

(** The same, for a list of modules run in order. *)
Fixpoint sequential_shape (training : bool) (ms : list module) (sh : list Z)
  : result (list Z) :=
  match ms with
  | [] => Ok sh
  | m :: ms' =>
      let* sh' := module_shape training m sh in
      sequential_shape training ms' sh'
  end.

(** *** [Tensor.size] and [Tensor.view] *)

Definition size_at (sh : list Z) (d : Z) : result Z :=
  let len := Z.of_nat (length sh) in
  if decide (- len <= d < len) then
    Ok (nth (Z.to_nat (if decide (d < 0) then len + d else d)) sh 0)
  else Raise (IndexError "Dimension out of range").

Definition view_shape (sh dims : list Z) : result (list Z) :=
  if existsb (fun d => d <? -1) dims then
    Raise (RuntimeError "invalid shape dimension")
  else
    match length (filter (fun d => d = -1) dims) with
    | O =>
        if decide (numel dims = numel sh) then Ok dims
        else Raise (RuntimeError "shape is invalid for input size")
    | 1%nat =>
        let known := numel (filter (fun d => d <> -1) dims) in
        if decide (known = 0) then
          Raise (RuntimeError "shape is invalid or ambiguous for input size")
        else if decide (numel sh mod known = 0) then
          Ok (map (fun d => if decide (d = -1) then numel sh / known else d)
                dims)
        else Raise (RuntimeError "shape is invalid for input size")
    | _ => Raise (RuntimeError "only one dimension can be inferred")
    end.

(** *** Broadcasting, as the loss functions and [+=] use it *)

Fixpoint broadcast_rev (a b : list Z) : option (list Z) :=
  match a, b with
  | [], _ => Some b
  | _, [] => Some a
  | x :: a', y :: b' =>
      if decide (x = y) then option_map (cons x) (broadcast_rev a' b')
      else if decide (x = 1) then option_map (cons y) (broadcast_rev a' b')
      else if decide (y = 1) then option_map (cons x) (broadcast_rev a' b')
      else None
  end.

Definition broadcast_shapes (a b : list Z) : option (list Z) :=
  option_map (@rev Z) (broadcast_rev (rev a) (rev b)).

(** *** The symbolic instance of the interface *)

Definition scalar (e : expr) : sym := mkSym [] e.

Definition sym_module_call (attr : string) (training : bool) (m : module)
    (x : sym) : result sym :=
  let* sh := module_shape training m (shape x) in
  Ok (mkSym sh (Call attr (term x))).

Definition sym_size (x : sym) (d : Z) : result Z := size_at (shape x) d.

Definition sym_view (x : sym) (dims : list Z) : result sym :=
  let* sh := view_shape (shape x) dims in
  Ok (mkSym sh (View dims (term x))).

(** [F.mse_loss] broadcasts its arguments (with a warning when the sizes
    differ) and reduces with [mean] to a scalar. *)
Definition sym_mse_loss (input target : sym) : result sym :=
  match broadcast_shapes (shape input) (shape target) with
  | Some _ => Ok (scalar (MseLoss (term input) (term target)))
  | None =>
    Raise (RuntimeError
             "The size of tensor a must match the size of tensor b")
  end.

(** [F.binary_cross_entropy_with_logits] insists on equal sizes. *)
Definition sym_bce_with_logits (input target : sym) : result sym :=
  if decide (shape target = shape input) then
    Ok (scalar (BCEWithLogits (term input) (term target)))
  else Raise (ValueError "Target size must be the same as input size").

(** In-place addition keeps the shape of its left operand. *)
Definition sym_iadd (a b : sym) : result sym :=
  if decide (broadcast_shapes (shape a) (shape b) = Some (shape a)) then
    Ok (mkSym (shape a) (Plus (term a) (term b)))
  else
    Raise (RuntimeError
             "output with this shape doesn't match the broadcast shape").

#[export] Instance Sym : Torch sym := {
  module_call := sym_module_call;
  tensor_size := sym_size;
  tensor_view := sym_view;
  mse_loss := sym_mse_loss;
  binary_cross_entropy_with_logits := sym_bce_with_logits;
  ones_like x := mkSym (shape x) (OnesLike (term x));
  zeros_like x := mkSym (shape x) (ZerosLike (term x));
  float_mul c x := mkSym (shape x) (Scale c (term x));
  tensor_iadd := sym_iadd;
}.

(** ** Stateful computations that may raise

    A Python statement sequence that mutates a state [S]: the state
    reached is kept when an exception leaves the sequence. *)

Definition stateful (S A : Type) : Type := S -> result A * S.

Definition sret {S A : Type} (a : A) : stateful S A := fun s => (Ok a, s).

Definition sbind {S A B : Type} (c : stateful S A) (k : A -> stateful S B)
  : stateful S B :=
  fun s =>
    match c s with
    | (Ok a, s') => k a s'
    | (Raise e, s') => (Raise e, s')
    end.

Definition lift {S A : Type} (r : result A) : stateful S A :=
  fun s => (r, s).

Notation "'let!' x ':=' c 'in' k" := (sbind c (fun x => k))
  (at level 10, x pattern, c at level 100, k at level 200).

(** ** Parameters, gradients and optimizers *)

Inductive owner : Type := Generator | Discriminator.

#[export] Instance owner_eq_dec : EqDecision owner.
Proof. solve_decision. Defined.

#[export] Instance owner_countable : Countable owner.
Proof.
  refine (inj_countable'
            (fun o => match o with Generator => true | Discriminator => false end)
            (fun b : bool => if b then Generator else Discriminator) _).
  by intros [].
Defined.

(** A parameter tensor: the model that owns it and its [state_dict] name. *)
Definition param : Type := (owner * string)%type.

(** The value of a parameter: its initial value, or the result of an
    optimizer step from an older value along a gradient.  A gradient is
    the list of the losses back-propagated into it since it was reset. *)
Inductive pvalue : Type :=
| Initial
| Stepped (optimizer_name : string) (old : pvalue) (grad : list expr).

Record optimizer : Type := {
  opt_name : string;
  param_group : list param;
}.

Inductive optimizer_method : Type := zero_grad_method | step_method.

Record store : Type := mkStore {
  values : gmap param pvalue;
  grads : gmap param (list expr);
  optimizer_calls : list (string * optimizer_method);
}.

(** Names of the parameters of a module stored under [prefix], as
    [named_parameters] lists them. *)
Fixpoint parameters (prefix : string) (m : module) {struct m} : list string :=
  match m with
  | Conv2d _ _ _ _ _ | ConvTranspose2d _ _ _ _ _ _
  | BatchNorm2d _ | BatchNorm1d _ | Linear _ _ =>
      [prefix +:+ ".weight"; prefix +:+ ".bias"]
  | LeakyReLU _ | Tanh => []
  | Sequential children =>
      (fix go (i : nat) (ms : list module) : list string :=
         match ms with
         | [] => []
         | m' :: ms' =>
             parameters (prefix +:+ "." +:+ pretty i) m' ++ go (S i) ms'
         end) 0%nat children
  end.

Definition generator_parameters (g : AdversarialAutoencoderGenerator.t)
  : list param :=
  map (pair Generator)
    (parameters "encoder" (AdversarialAutoencoderGenerator.encoder g)
     ++ parameters "encoder_fc" (AdversarialAutoencoderGenerator.encoder_fc g)
     ++ parameters "decoder_fc" (AdversarialAutoencoderGenerator.decoder_fc g)
     ++ parameters "decoder" (AdversarialAutoencoderGenerator.decoder g)).

Definition discriminator_parameters
    (d : AdversarialAutoencoderDiscriminator.t) : list param :=
  map (pair Discriminator)
    (parameters "model" (AdversarialAutoencoderDiscriminator.model d)).

(** The submodule attributes whose outputs a term was computed from. *)
Fixpoint attrs_called (e : expr) : list string :=
  match e with
  | Input _ | Randn _ => []
  | Call attr x => attr :: attrs_called x
  | View _ x | Unbind _ x | OnesLike x | ZerosLike x | Scale _ x =>
      attrs_called x
  | MseLoss a b | BCEWithLogits a b | Plus a b =>
      attrs_called a ++ attrs_called b
  end.

(** The attribute names of the two classes are distinct, so an attribute
    identifies the model it belongs to. *)
Definition attr_owner (attr : string) : owner :=
  if decide (attr = "model") then Discriminator else Generator.

(** [p] is a parameter of one of the submodules [e] was computed with. *)
Definition reaches (e : expr) (p : param) : bool :=
  existsb (fun attr => bool_decide (attr_owner attr = p.1)
                       && String.prefix (attr +:+ ".") p.2)
    (attrs_called e).

(** [optimizer.zero_grad()]: resets the gradients of its own parameters. *)
Definition zero_grad (opt : optimizer) : stateful store unit :=
  fun st =>
    (Ok tt,
     mkStore (values st)
       (foldr (fun p g => delete p g) (grads st) (param_group opt))
       (optimizer_calls st ++ [(opt_name opt, zero_grad_method)])).

(** [loss.backward()]: accumulates the gradient of [loss] into every
    parameter it was computed from, whatever model owns it. *)
Definition backward (loss : sym) : stateful store unit :=
  fun st =>
    if bool_decide (map_Exists (fun p _ => reaches (term loss) p = true)
                      (values st)) then
      (Ok tt,
       mkStore (values st)
         (map_imap (fun p _ =>
                      if reaches (term loss) p
                      then Some (default [] (grads st !! p) ++ [term loss])
                      else grads st !! p)
            (values st))
         (optimizer_calls st))
    else
      (Raise (RuntimeError
                "element 0 of tensors does not require grad and does not have a grad_fn"),
       st).

(** [optimizer.step()]: updates each of its own parameters that has a
    gradient. *)
Definition step_param (name : string) (g : gmap param (list expr))
    (p : param) (v : gmap param pvalue) : gmap param pvalue :=
  match v !! p, g !! p with
  | Some old, Some grad => <[p := Stepped name old grad]> v
  | _, _ => v
  end.

Definition step (opt : optimizer) : stateful store unit :=
  fun st =>
    (Ok tt,
     mkStore
       (foldr (step_param (opt_name opt) (grads st)) (values st)
          (param_group opt))
       (grads st)
       (optimizer_calls st ++ [(opt_name opt, step_method)])).

(** [recon, encodings = generator(real_inputs)]: unpacking a tuple, or
    iterating over the first dimension of a tensor. *)
Definition unpack2 (v : py_value sym) : result (sym * sym) :=
  match v with
  | Tuple2 a b => Ok (a, b)
  | Single x =>
      match shape x with
      | [] => Raise (TypeError "iteration over a 0-d tensor")
      | n :: rest =>
          if decide (n = 2) then
            Ok (mkSym rest (Unbind 0 (term x)), mkSym rest (Unbind 1 (term x)))
          else
            Raise (ValueError
                     "wrong number of values to unpack (expected 2)")
      end
  end.

(** [torch.randn(n, m, device=device)] *)
Definition randn (n m : Z) : result sym :=
  if decide (0 <= n /\ 0 <= m) then Ok (mkSym [n; m] (Randn [n; m]))
  else Raise (RuntimeError "Trying to create tensor with negative dimension").

(** [loss.item()] *)
Definition item (x : sym) : result expr :=
  if decide (numel (shape x) = 1) then Ok (term x)
  else
    Raise (RuntimeError
             "a Tensor with more than one element cannot be converted to Scalar").

(** ** class AdversarialAutoencoderGeneratorLoss(losses.GeneratorLoss) *)

Module AdversarialAutoencoderGeneratorLoss.
Section Methods.
Context {tensor : Type} `{Torch tensor}.

Definition forward (real_inputs gen_inputs dgz : tensor) : result tensor :=
  let* m := mse_loss gen_inputs real_inputs in
  let loss := float_mul 0.999 m in
  let target := ones_like dgz in
  let* b := binary_cross_entropy_with_logits dgz target in
  let* loss := tensor_iadd loss (float_mul 0.001 b) in
  Ok loss.
End Methods.

Definition train_ops
    (generator : AdversarialAutoencoderGenerator.t)
    (discriminator : AdversarialAutoencoderDiscriminator.t)
    (optimizer_generator : optimizer)
    (real_inputs : sym) (device : string) (batch_size : Z)
  : stateful store expr :=
  let! out := lift (AdversarialAutoencoderGenerator.forward generator
                      real_inputs) in
  let! (recon, encodings) := lift (unpack2 out) in
  let! _ := zero_grad optimizer_generator in
  let! dgz := lift (AdversarialAutoencoderDiscriminator.forward
                      discriminator encodings) in
  let! loss := lift (forward real_inputs recon dgz) in
  let! _ := backward loss in
  let! _ := step optimizer_generator in
  lift (item loss).

End AdversarialAutoencoderGeneratorLoss.

(** ** class AdversarialAutoencoderDiscriminatorLoss(losses.DiscriminatorLoss) *)

Module AdversarialAutoencoderDiscriminatorLoss.
Section Methods.
Context {tensor : Type} `{Torch tensor}.

Definition forward (dx dgz : tensor) : result tensor :=
  let target_real := ones_like dx in
  let target_fake := zeros_like dx in
  let* b := binary_cross_entropy_with_logits dx target_real in
  let loss := float_mul 0.5 b in
  let* b' := binary_cross_entropy_with_logits dgz target_fake in
  let* loss := tensor_iadd loss (float_mul 0.5 b') in
  Ok loss.
End Methods.

Definition train_ops
    (generator : AdversarialAutoencoderGenerator.t)
    (discriminator : AdversarialAutoencoderDiscriminator.t)
    (optimizer_discriminator : optimizer)
    (real_inputs : sym) (device : string) (batch_size : Z)
  : stateful store expr :=
  let! out := lift (AdversarialAutoencoderGenerator.forward generator
                      real_inputs) in
  let! (_, encodings) := lift (unpack2 out) in
  let! n := lift (tensor_size real_inputs 0) in
  let! noise := lift (randn n (AdversarialAutoencoderGenerator.encoding_dims
                                 generator)) in
  let! _ := zero_grad optimizer_discriminator in
  let! dx := lift (AdversarialAutoencoderDiscriminator.forward
                     discriminator noise) in
  let! dgz := lift (AdversarialAutoencoderDiscriminator.forward
                      discriminator encodings) in
  let! loss := lift (forward dx dgz) in
  let! _ := backward loss in
  let! _ := step optimizer_discriminator in
  lift (item loss).

End AdversarialAutoencoderDiscriminatorLoss.

(** ** The optimizers of the [network] dictionary

    As the notebook describes the dictionary, the entry of each model names
    the optimizer associated with that model, which is called
    [optimizer_<model name>] unless the entry says otherwise.  Such an
    optimizer holds the parameters of its model, all at their initial
    values before training. *)

Definition Adam (name : string) (params : list param) : optimizer :=
  {| opt_name := name; param_group := params |}.

Definition initial_store (g : AdversarialAutoencoderGenerator.t)
    (d : AdversarialAutoencoderDiscriminator.t) : store :=
  mkStore
    (list_to_map
       (map (fun p => (p, Initial))
          (generator_parameters g ++ discriminator_parameters d)))
    ∅ [].

(** ** The notebook as a script

    The top-level cells, run in order.  Every statement that calls into a
    library is an [event]; the environment decides which calls raise. *)

Inductive event : Type :=
| Import (name : string)
| Print (what : string)
| LibCall (function : string)
| ClassDef (name : string)
| Assign (variable : string)
| TrainerInit (sample_size epochs : Z) (device : string)
| TrainerCall (argument : string)
| Imread (epoch : Z).

(** The log of the calls made so far, each with the exception it raised,
    if any. *)
Definition log : Type := list (event * option exn).

Record environment : Type := {
  (** whether a call raises, given what has happened before it *)
  oracle : log -> event -> option exn;
  (** the answer of [torch.cuda.is_available()] *)
  cuda_is_available : bool;
}.

Definition script (A : Type) : Type := stateful log A.

Definition perform (env : environment) (ev : event) : script unit :=
  fun l =>
    match oracle env l ev with
    | Some e => (Raise e, l ++ [(ev, Some e)])
    | None => (Ok tt, l ++ [(ev, None)])
    end.

(** A block of statements, one after the other. *)
Fixpoint perform_all (env : environment) (evs : list event) : script unit :=
  match evs with
  | [] => sret tt
  | ev :: evs' => let! _ := perform env ev in perform_all env evs'
  end.

(** [except ImportError] catches instances of [ImportError] and of its
    built-in subclass [ModuleNotFoundError]. *)
Definition is_ImportError (e : exn) : bool :=
  bool_decide (exn_class e = "ImportError")
  || bool_decide (exn_class e = "ModuleNotFoundError").

(** [try: body except ImportError: handler] *)
Definition try_except_ImportError {A : Type} (body handler : script A)
  : script A :=
  fun l =>
    match body l with
    | (Raise e, l') => if is_ImportError e then handler l' else (Raise e, l')
    | (Ok a, l') => (Ok a, l')
    end.

(** Cell 2: the installation guard. *)
Definition guard_body : list event :=
  [Import "torchgan"; Print "Existing TorchGAN installation found"].

Definition guard_handler : list event :=
  [Import "subprocess"; Import "sys";
   LibCall "subprocess.check_call: pip install torchgan";
   Import "torchgan"; Print "Installed TorchGAN"].

Definition install_guard (env : environment) : script unit :=
  try_except_ImportError (perform_all env guard_body)
    (perform_all env guard_handler).

(** Cells 4 and 5: imports and the random seed. *)
Definition imports_events : list event :=
  [Import "os"; Import "random"; Import "matplotlib.pyplot";
   Import "matplotlib.animation"; Import "numpy"; Import "IPython.display";
   Import "torch"; Import "torch.nn"; Import "torch.nn.functional";
   Import "torchvision"; Import "torchvision.transforms";
   Import "torch.optim"; Import "torch.utils.data";
   Import "torchvision.datasets"; Import "torchvision.transforms";
   Import "torchvision.utils"; Import "torchgan.models";
   Import "torchgan.losses"; Import "torchgan.trainer"].

Definition set_seed_events : list event :=
  [Assign "manualSeed"; LibCall "random.seed"; LibCall "torch.manual_seed";
   Print "Random Seed"].

(** Cells 8 and 9: the dataset and its loader. *)
Definition load_data_events : list event :=
  [LibCall "transforms.Resize"; LibCall "transforms.ToTensor";
   LibCall "transforms.Normalize"; LibCall "transforms.Compose";
   LibCall "dsets.MNIST"; Assign "dataset";
   LibCall "data.DataLoader"; Assign "loader"].

(** Cells 12 and 15: the two model classes; the default argument
    [nn.LeakyReLU(0.2)] is built when the class statement runs. *)
Definition define_models_events : list event :=
  [LibCall "nn.LeakyReLU"; ClassDef "AdversarialAutoencoderGenerator";
   LibCall "nn.LeakyReLU"; ClassDef "AdversarialAutoencoderDiscriminator"].

(** Cell 18: the two loss classes and the list of their instances. *)
Definition define_losses_events : list event :=
  [ClassDef "AdversarialAutoencoderGeneratorLoss";
   ClassDef "AdversarialAutoencoderDiscriminatorLoss";
   LibCall "AdversarialAutoencoderGeneratorLoss";
   LibCall "AdversarialAutoencoderDiscriminatorLoss";
   Assign "losses"].

(** Cell 21: the dictionary of models and optimizers. *)
Definition configure_events : list event := [Assign "network"].

(** Cell 25: device and number of epochs. *)
Definition cuda_events : list event :=
  [LibCall "torch.device"; Assign "device";
   Assign "torch.backends.cudnn.deterministic"; Assign "epochs"].

Definition cpu_events : list event :=
  [LibCall "torch.device"; Assign "device"; Assign "epochs"].

Definition report_events : list event := [Print "Device"; Print "Epochs"].

Definition select_device (env : environment) : script (string * Z) :=
  let! _ := perform env (LibCall "torch.cuda.is_available") in
  let! de :=
    if cuda_is_available env then
      let! _ := perform_all env cuda_events in sret ("cuda:0"%string, 10)
    else
      let! _ := perform_all env cpu_events in sret ("cpu"%string, 5) in
  let! _ := perform_all env report_events in
  sret de.

(** Cell 26: the Trainer is built and called on the loader. *)
Definition train_events (device : string) (epochs : Z) : list event :=
  [TrainerInit 64 epochs device; Assign "trainer"; TrainerCall "loader"].

(** Cells 29 and 30: the plots.  The animation reads one image per epoch,
    [for i in range(1, trainer.epochs + 1)]. *)
Definition show_batch_events (epochs : Z) : list event :=
  [LibCall "iter"; LibCall "next"; Assign "real_batch";
   LibCall "plt.figure"; LibCall "plt.subplot";
   LibCall "plt.axis"; LibCall "plt.title";
   LibCall "Tensor.to"; LibCall "vutils.make_grid"; LibCall "Tensor.cpu";
   LibCall "np.transpose"; LibCall "plt.imshow";
   LibCall "plt.subplot"; LibCall "plt.axis"; LibCall "plt.title";
   Imread epochs; LibCall "plt.imshow"; LibCall "plt.show";
   LibCall "plt.figure"; Assign "fig"; LibCall "plt.axis"].

Definition frames (epochs : Z) : list event :=
  flat_map (fun i => [Imread (Z.of_nat i); LibCall "plt.imshow"])
    (seq 1 (Z.to_nat epochs)).

Definition animate_events : list event :=
  [Assign "ims"; LibCall "animation.ArtistAnimation"; Assign "ani";
   LibCall "ani.to_jshtml"; LibCall "HTML"].

Definition plot (env : environment) (epochs : Z) : script unit :=
  let! _ := perform_all env (show_batch_events epochs) in
  let! _ := perform_all env (frames epochs) in
  perform_all env animate_events.

(** The cells after the installation guard. *)
Definition after_guard (env : environment) : script unit :=
  let! _ := perform_all env imports_events in
  let! _ := perform_all env set_seed_events in
  let! _ := perform_all env load_data_events in
  let! _ := perform_all env define_models_events in
  let! _ := perform_all env define_losses_events in
  let! _ := perform_all env configure_events in
  let! (device, epochs) := select_device env in
  let! _ := perform_all env (train_events device epochs) in
  plot env epochs.

Definition notebook (env : environment) : script unit :=
  let! _ := install_guard env in after_guard env.





Definition is_TrainerCall (ev : event) : bool :=
  match ev with TrainerCall _ => true | _ => false end.

(** The calls of the cells after the guard when nothing fails: they
    depend on the environment through the availability of CUDA only. *)
Definition device_epochs (cuda : bool) : string * Z :=
  if cuda then ("cuda:0"%string, 10) else ("cpu"%string, 5).

Definition after_guard_events (cuda : bool) : list event :=
  imports_events ++ set_seed_events ++ load_data_events
  ++ define_models_events ++ define_losses_events ++ configure_events
  ++ ([LibCall "torch.cuda.is_available"]
      ++ (if cuda then cuda_events else cpu_events) ++ report_events)
  ++ train_events (device_epochs cuda).1 (device_epochs cuda).2
  ++ (show_batch_events (device_epochs cuda).2
      ++ frames (device_epochs cuda).2 ++ animate_events).

(** A log extension in which no call raised. *)
Definition quiet_log (evs : list event) : log :=
  map (fun ev => (ev, None)) evs.

(** [after] is what a block of calls [evs] without exception handling adds
    to the log when its outcome is [r]: every call in turn, none raising;
    or the calls up to the first that raised, whose exception is the
    outcome. *)
Definition continues {A : Type} (after : log) (r : result A)
    (evs : list event) : Prop :=
  match r with
  | Ok _ => after = quiet_log evs
  | Raise e =>
      exists p ev rest,
        evs = p ++ ev :: rest /\ after = quiet_log p ++ [(ev, Some e)]
  end.

Definition runs {A : Type} (c : script A) (evs : list event)
    (post : A -> Prop) : Prop :=
  forall l,
    exists after,
      (c l).2 = l ++ after
      /\ continues after (c l).1 evs
      /\ forall a, (c l).1 = Ok a -> post a.

(** The shape of every log of the notebook: either no exception was
    caught, or one call of the [try] block raised an [ImportError], after
    which the handler and the remaining cells ran. *)
Definition notebook_outcome (cuda : bool) (l : log) (r : result unit)
  : Prop :=
  continues l r (guard_body ++ after_guard_events cuda)
  \/ exists pre ev e0 after,
      pre ++ [ev] `prefix_of` guard_body
      /\ is_ImportError e0 = true
      /\ l = quiet_log pre ++ [(ev, Some e0)] ++ after
      /\ continues after r (guard_handler ++ after_guard_events cuda).

(** * Vocabulary of the properties

    Short names for the four classes, the models of the [network]
    dictionary, the loop invariants, and the predicates the theorems are
    stated with. *)

Module G := AdversarialAutoencoderGenerator.
Module D := AdversarialAutoencoderDiscriminator.
Module GLoss := AdversarialAutoencoderGeneratorLoss.
Module DLoss := AdversarialAutoencoderDiscriminatorLoss.

(** Enough fuel for every loop of the two constructors. *)
Definition enough_fuel (input_size : Z) : nat := S (Z.to_nat input_size).

(** A module that hands its input shape through, as every activation
    function does. *)
Definition shape_preserving (m : module) : Prop :=
  forall training sh, module_shape training m sh = Ok sh.

(** What the encoder loop keeps true: [size] is a power of two or 0, and
    the layers built so far map the input to a square of side
    [max(1, size)] with [channels] channels. *)
Definition encoder_inv (training : bool) (n : Z) (input : list Z)
    (s : G.loop_state) : Prop :=
  let '(encoder, size, channels) := s in
  0 < channels
  /\ ((exists j : nat, size = 2 ^ Z.of_nat j) \/ size = 0)
  /\ sequential_shape training encoder input
     = Ok [n; channels; Z.max 1 size; Z.max 1 size].

(** What the decoder loop keeps true: the layers built so far map a
    [(n, step_channels, 1, 1)] tensor to a square of side [size]. *)
Definition decoder_inv (training : bool) (n : Z) (step_channels : Z)
    (s : G.loop_state) : Prop :=
  let '(decoder, size, channels) := s in
  0 < channels /\ 1 <= size
  /\ sequential_shape training decoder [n; step_channels; 1; 1]
     = Ok [n; channels; size; size].

(** The generator and the discriminator of the [network] dictionary:
    [encoding_dims = 128], [input_size = 32], [input_channels = 1] and
    [input_dims = 128], the other arguments at their defaults. *)
Definition network_generator (fuel : nat) : option G.t :=
  G.__init__ fuel 128 32 1 16 default_nonlinearity.

Definition network_discriminator (fuel : nat) : option D.t :=
  D.__init__ fuel 128 default_nonlinearity.

(** The layers of a module, in the order they are applied. *)
Fixpoint leaves (m : module) : list module :=
  match m with
  | Sequential children =>
      (fix go (ms : list module) : list module :=
         match ms with
         | [] => []
         | m' :: ms' => leaves m' ++ go ms'
         end) children
  | _ => [m]
  end.

Definition mlp_layer (m : module) : bool :=
  match m with
  | Linear _ _ | BatchNorm1d _ | LeakyReLU _ => true
  | _ => false
  end.

(** What the discriminator loop keeps true: the layers built so far are
    linear, batch-normalisation and LeakyReLU layers that map a
    [(n, input_dims)] batch to an [(n, size)] batch. *)
Definition model_inv (training : bool) (n input_dims : Z)
    (s : D.loop_state) : Prop :=
  let '(model, size) := s in
  forallb mlp_layer (flat_map leaves model) = true
  /\ sequential_shape training model [n; input_dims] = Ok [n; size].

(** A weighted sum of one mean-squared-error term and one binary
    cross-entropy term, in either order. *)
Definition weighted_mse_plus_bce (e : expr) : bool :=
  match e with
  | Plus (Scale _ (MseLoss _ _)) (Scale _ (BCEWithLogits _ _))
  | Plus (Scale _ (BCEWithLogits _ _)) (Scale _ (MseLoss _ _)) => true
  | _ => false
  end.

(** The number of mean-squared-error terms in a loss. *)
Fixpoint mse_terms (e : expr) : nat :=
  match e with
  | Input _ | Randn _ => 0
  | Call _ x | View _ x | Unbind _ x | OnesLike x | ZerosLike x
  | Scale _ x => mse_terms x
  | MseLoss a b => S (mse_terms a + mse_terms b)
  | BCEWithLogits a b | Plus a b => mse_terms a + mse_terms b
  end.

(** A weighted sum of two binary cross-entropy terms. *)
Definition weighted_bce_plus_bce (e : expr) : bool :=
  match e with
  | Plus (Scale _ (BCEWithLogits _ _)) (Scale _ (BCEWithLogits _ _)) => true
  | _ => false
  end.

(** [st'] differs from [st] in no parameter value of model [o], and the
    optimizer calls made in between were all made on the optimizer called
    [name]. *)
Definition only_touches (name : string) (o : owner) (st st' : store)
  : Prop :=
  (forall p : param, p.1 = o -> values st' !! p = values st !! p)
  /\ exists calls,
      optimizer_calls st' = optimizer_calls st ++ calls
      /\ Forall (fun c => c.1 = name) calls.

Definition preserves {A : Type} (R : store -> store -> Prop)
    (c : stateful store A) : Prop :=
  forall st, R st (c st).2.



(** An environment in which [torchgan] is not installed yet: the first
    import fails, everything afterwards succeeds. *)
Definition missing_torchgan : environment :=
  {| oracle := fun l ev =>
       match l, ev with
       | [], Import _ =>
           Some (mkExn "ModuleNotFoundError" "No module named 'torchgan'")
       | _, _ => None
       end;
     cuda_is_available := false |}.






Definition trainer_calls (evs : list event) : list event :=
  filter (fun ev => is_TrainerCall ev = true) evs.


(** What the decoder loop keeps true of [size] alone: it is a power of 4,
    and the power of 4 before it, if any, is below [input_size // 2]. *)
Definition decoder_size_inv (input_size : Z) (s : G.loop_state) : Prop :=
  let '(_, size, _) := s in
  exists i : nat,
    size = 2 ^ Z.of_nat (2 * i)
    /\ (i = 0%nat \/ 2 ^ Z.of_nat (2 * (i - 1)) < input_size / 2).

(** What the encoder loop keeps true on a batch of one image, in training
    mode: either the layers built so far still accept the batch and leave a
    square of side [size], a power of two above 1, or [size] has dropped to
    1 or 0 and the last batch normalisation has raised. *)
Definition encoder_single_inv (input : list Z) (s : G.loop_state) : Prop :=
  let '(encoder, size, channels) := s in
  (exists j : nat,
      (1 <= j)%nat /\ size = 2 ^ Z.of_nat j
      /\ sequential_shape true encoder input = Ok [1; channels; size; size])
  \/ (size <= 1
      /\ sequential_shape true encoder input
         = Raise (ValueError
                    "Expected more than 1 value per channel when training")).

(** What the discriminator loop keeps true of [size]: it stays at 8 or
    more; and it stays a power of two, 16 or more. *)
Definition model_width_inv (s : D.loop_state) : Prop :=
  let '(_, size) := s in 8 <= size.

Definition model_pow2_inv (s : D.loop_state) : Prop :=
  let '(_, size) := s in exists j : nat, (4 <= j)%nat /\ size = 2 ^ Z.of_nat j.

(** The store a training step leaves when it returns [loss]: the gradients
    of the optimizer's parameters are reset, the loss is back-propagated
    into every parameter it reaches, the optimizer steps. *)
Definition step_store (opt : optimizer) (loss : expr) (st : store) : store :=
  let zeroed := foldr (fun q g => delete q g) (grads st) (param_group opt) in
  let grads' :=
    map_imap (fun p _ =>
                if reaches loss p
                then Some (default [] (zeroed !! p) ++ [loss])
                else zeroed !! p)
      (values st) in
  mkStore
    (foldr (step_param (opt_name opt) grads') (values st) (param_group opt))
    grads'
    ((optimizer_calls st ++ [(opt_name opt, zero_grad_method)])
     ++ [(opt_name opt, step_method)]).

(** The cells between the installation guard and the call of the trainer,
    and the cells after that call, when nothing fails. *)
Definition before_training (cuda : bool) : list event :=
  imports_events ++ set_seed_events ++ load_data_events
  ++ define_models_events ++ define_losses_events ++ configure_events
  ++ ([LibCall "torch.cuda.is_available"]
      ++ (if cuda then cuda_events else cpu_events) ++ report_events)
  ++ [TrainerInit 64 (device_epochs cuda).2 (device_epochs cuda).1;
      Assign "trainer"].

Definition plot_events (cuda : bool) : list event :=
  show_batch_events (device_epochs cuda).2
  ++ frames (device_epochs cuda).2 ++ animate_events.



(** * Properties *)

(** ** Loops *)

Section While.
Context {S : Type} (cond : S -> bool) (body : S -> S).

(** A loop whose body decreases a measure while an invariant holds stops
    within that many iterations. *)
Lemma while_terminates (inv : S -> Prop) (measure : S -> nat) :
  (forall s, inv s -> cond s = true ->
             inv (body s) /\ (measure (body s) < measure s)%nat) ->
  forall fuel s, inv s -> (measure s < fuel)%nat ->
                 exists s', while fuel cond body s = Some s'.
Proof.
  intros Hstep fuel.
  induction fuel as [|fuel IH]; intros s Hinv Hlt; [lia|].
  simpl. destruct (cond s) eqn:Hc; [|eauto].
  destruct (Hstep s Hinv Hc) as [Hinv' Hdec].
  apply IH; [assumption|lia].
Qed.

(** An invariant of the body holds when the loop stops, and the condition
    is false then. *)
Lemma while_invariant (inv : S -> Prop) :
  (forall s, inv s -> cond s = true -> inv (body s)) ->
  forall fuel s s', inv s -> while fuel cond body s = Some s' ->
                    inv s' /\ cond s' = false.
Proof.
  intros Hstep fuel.
  induction fuel as [|fuel IH]; intros s s' Hinv Hrun; [discriminate|].
  simpl in Hrun. destruct (cond s) eqn:Hc.
  - eapply IH; [|exact Hrun]. auto.
  - injection Hrun as <-. auto.
Qed.

(** More fuel does not change the outcome of a loop that stopped. *)
Lemma while_fuel_mono fuel fuel' s s' :
  (fuel <= fuel')%nat -> while fuel cond body s = Some s' ->
  while fuel' cond body s = Some s'.
Proof.
  revert fuel' s.
  induction fuel as [|fuel IH]; intros fuel' s Hle Hrun; [discriminate|].
  destruct fuel' as [|fuel']; [lia|].
  simpl in *. destruct (cond s); [|assumption].
  apply IH; [lia|assumption].
Qed.
End While.

Lemma encoder_loop_terminates nonlinearity fuel encoder size channels :
  (Z.to_nat size < fuel)%nat ->
  exists s', while fuel G.encoder_cond (G.encoder_body nonlinearity)
               (encoder, size, channels) = Some s'.
Proof.
  intros Hfuel.
  apply (while_terminates _ _ (fun _ => True)
           (fun s : G.loop_state => Z.to_nat s.1.2)); [|exact I|exact Hfuel].
  intros [[e s] c] _ Hc. split; [exact I|].
  unfold G.encoder_cond in Hc. apply Z.ltb_lt in Hc. simpl. 
  apply Z2Nat.inj_lt; [apply Z.div_pos; lia|lia|].
  apply Z.div_lt; lia.
Qed.

Lemma decoder_loop_terminates nonlinearity input_size fuel decoder size
    channels :
  1 <= size -> (Z.to_nat (input_size / 2) < fuel)%nat ->
  exists s', while fuel (G.decoder_cond input_size)
               (G.decoder_body nonlinearity)
               (decoder, size, channels) = Some s'.
Proof.
  intros Hsize Hfuel.
  apply (while_terminates _ _ (fun s : G.loop_state => 1 <= s.1.2)
           (fun s : G.loop_state => Z.to_nat (input_size / 2 - s.1.2)));
    [|exact Hsize|simpl; lia].
  intros [[e s] c] Hs Hc. simpl in *.
  unfold G.decoder_cond in Hc. apply Z.ltb_lt in Hc. lia.
Qed.

Lemma model_loop_terminates nonlinearity fuel model size :
  (Z.to_nat size < fuel)%nat ->
  exists s', while fuel D.model_cond (D.model_body nonlinearity)
               (model, size) = Some s'.
Proof.
  intros Hfuel.
  apply (while_terminates _ _ (fun _ => True)
           (fun s : D.loop_state => Z.to_nat s.2)); [|exact I|exact Hfuel].
  intros [m s] _ Hc. split; [exact I|].
  unfold D.model_cond in Hc. apply Z.ltb_lt in Hc. simpl.
  apply Z2Nat.inj_lt; [apply Z.div_pos; lia|lia|].
  apply Z.div_lt; lia.
Qed.

Lemma half_le (n : Z) : (Z.to_nat (n / 2) <= Z.to_nat n)%nat.
Proof.
  destruct (Z_lt_le_dec n 0).
  - assert (n / 2 < 0) by (Z.div_mod_to_equations; lia). lia.
  - assert (0 <= n / 2 <= n) by (Z.div_mod_to_equations; lia). lia.
Qed.

Lemma generator_init_returns fuel encoding_dims input_size input_channels
    step_channels nonlinearity :
  (enough_fuel input_size <= fuel)%nat ->
  exists g, G.__init__ fuel encoding_dims input_size input_channels
              step_channels nonlinearity = Some g.
Proof.
  intros Hfuel. unfold enough_fuel in Hfuel.
  pose proof (half_le input_size) as Hhalf.
  unfold G.__init__, G.encoder_init, G.decoder_init.
  destruct (encoder_loop_terminates nonlinearity fuel
              [Sequential [Conv2d input_channels step_channels 5 2 2;
                           nonlinearity]]
              (input_size / 2) step_channels) as [[[e s] c] ->]; [lia|].
  destruct (decoder_loop_terminates nonlinearity input_size fuel [] 1
              step_channels) as [[[e' s'] c'] ->]; [lia|lia|].
  eauto.
Qed.

Lemma discriminator_init_returns fuel input_dims nonlinearity :
  (enough_fuel input_dims <= fuel)%nat ->
  exists d, D.__init__ fuel input_dims nonlinearity = Some d.
Proof.
  intros Hfuel. unfold enough_fuel in Hfuel.
  pose proof (half_le input_dims) as Hhalf.
  unfold D.__init__, D.model_init.
  destruct (model_loop_terminates nonlinearity fuel
              [Sequential [Linear input_dims (input_dims / 2); nonlinearity]]
              (input_dims / 2)) as [[m s] ->]; [lia|].
  eauto.
Qed.

Lemma generator_init_fuel_mono fuel fuel' encoding_dims input_size
    input_channels step_channels nonlinearity g :
  (fuel <= fuel')%nat ->
  G.__init__ fuel encoding_dims input_size input_channels step_channels
    nonlinearity = Some g ->
  G.__init__ fuel' encoding_dims input_size input_channels step_channels
    nonlinearity = Some g.
Proof.
  intros Hle. unfold G.__init__.
  destruct (while fuel G.encoder_cond _ _) as [[[enc size] c]|] eqn:Henc;
    [|discriminate].
  destruct (while fuel (G.decoder_cond _) _ _) as [[[dec size'] c']|]
    eqn:Hdec; [|discriminate].
  rewrite (while_fuel_mono _ _ _ _ _ _ Hle Henc).
  rewrite (while_fuel_mono _ _ _ _ _ _ Hle Hdec). auto.
Qed.

Lemma discriminator_init_fuel_mono fuel fuel' input_dims nonlinearity d :
  (fuel <= fuel')%nat ->
  D.__init__ fuel input_dims nonlinearity = Some d ->
  D.__init__ fuel' input_dims nonlinearity = Some d.
Proof.
  intros Hle. unfold D.__init__.
  destruct (while fuel D.model_cond _ _) as [[model size]|] eqn:Hmodel;
    [|discriminate].
  rewrite (while_fuel_mono _ _ _ _ _ _ Hle Hmodel). auto.
Qed.

(** C5: for every [input_size >= 2] the encoder loop and the decoder loop,
    and for every [input_dims >= 1] the discriminator loop, stop after
    finitely many iterations.  There is a number of iterations within which
    each loop reaches its final state and both constructors return; the
    final states and the modules built are the same however much more fuel
    the loops are given, so the topology is fixed by the configuration. *)
Theorem layer_loops_terminate
    (encoding_dims input_size input_channels step_channels input_dims : Z)
    (nonlinearity : module) :
  2 <= input_size -> 1 <= input_dims ->
  exists (bound : nat) (s_enc s_dec : G.loop_state) (s_model : D.loop_state)
         (g : G.t) (d : D.t),
  forall fuel : nat, (bound <= fuel)%nat ->
    while fuel G.encoder_cond (G.encoder_body nonlinearity)
      (G.encoder_init input_size input_channels step_channels nonlinearity)
    = Some s_enc
    /\ while fuel (G.decoder_cond input_size) (G.decoder_body nonlinearity)
         (G.decoder_init step_channels)
       = Some s_dec
    /\ while fuel D.model_cond (D.model_body nonlinearity)
         (D.model_init input_dims nonlinearity)
       = Some s_model
    /\ G.__init__ fuel encoding_dims input_size input_channels
         step_channels nonlinearity = Some g
    /\ D.__init__ fuel input_dims nonlinearity = Some d.
Proof.
  intros Hsize Hdims.
  set (bound := (enough_fuel input_size + enough_fuel input_dims)%nat).
  assert (Hb1 : (enough_fuel input_size <= bound)%nat) by (subst bound; lia).
  assert (Hb2 : (enough_fuel input_dims <= bound)%nat) by (subst bound; lia).
  pose proof (half_le input_size) as Hh1.
  pose proof (half_le input_dims) as Hh2.
  unfold enough_fuel in Hb1, Hb2.
  destruct (encoder_loop_terminates nonlinearity bound
              [Sequential [Conv2d input_channels step_channels 5 2 2;
                           nonlinearity]]
              (input_size / 2) step_channels) as [s_enc Henc]; [lia|].
  destruct (decoder_loop_terminates nonlinearity input_size bound [] 1
              step_channels) as [s_dec Hdec]; [lia|lia|].
  destruct (model_loop_terminates nonlinearity bound
              [Sequential [Linear input_dims (input_dims / 2); nonlinearity]]
              (input_dims / 2)) as [s_model Hmodel]; [lia|].
  destruct (generator_init_returns bound encoding_dims input_size
              input_channels step_channels nonlinearity) as [g Hg];
    [unfold enough_fuel; lia|].
  destruct (discriminator_init_returns bound input_dims nonlinearity)
    as [d Hd]; [unfold enough_fuel; lia|].
  exists bound, s_enc, s_dec, s_model, g, d. intros fuel Hfuel.
  split; [exact (while_fuel_mono _ _ _ _ _ _ Hfuel Henc)|].
  split; [exact (while_fuel_mono _ _ _ _ _ _ Hfuel Hdec)|].
  split; [exact (while_fuel_mono _ _ _ _ _ _ Hfuel Hmodel)|].
  split.
  - exact (generator_init_fuel_mono _ _ _ _ _ _ _ _ Hfuel Hg).
  - exact (discriminator_init_fuel_mono _ _ _ _ _ Hfuel Hd).
Qed.

Lemma layer_loops_terminate_witness :
  exists (bound : nat) (s_enc s_dec : G.loop_state) (s_model : D.loop_state)
         (g : G.t) (d : D.t),
  forall fuel : nat, (bound <= fuel)%nat ->
    while fuel G.encoder_cond (G.encoder_body default_nonlinearity)
      (G.encoder_init 32 1 16 default_nonlinearity) = Some s_enc
    /\ while fuel (G.decoder_cond 32) (G.decoder_body default_nonlinearity)
         (G.decoder_init 16) = Some s_dec
    /\ while fuel D.model_cond (D.model_body default_nonlinearity)
         (D.model_init 128 default_nonlinearity) = Some s_model
    /\ G.__init__ fuel 128 32 1 16 default_nonlinearity = Some g
    /\ D.__init__ fuel 128 default_nonlinearity = Some d.
Proof.
  apply (layer_loops_terminate 128 32 1 16 128 default_nonlinearity); lia.
Defined.

(** The loops of the notebook's configuration: three layers in the
    encoder, two blocks in the decoder, three layers before the last in
    the discriminator. *)
Example network_loops :
  while 4 G.encoder_cond (G.encoder_body Tanh) (G.encoder_init 32 1 16 Tanh)
  = Some ([Sequential [Conv2d 1 16 5 2 2; Tanh];
           Sequential [Conv2d 16 64 5 4 2; BatchNorm2d 64; Tanh];
           Sequential [Conv2d 64 256 5 4 2; BatchNorm2d 256; Tanh]], 1, 256)
  /\ while 4 (G.decoder_cond 32) (G.decoder_body Tanh) (G.decoder_init 16)
     = Some ([Sequential [ConvTranspose2d 16 64 5 4 2 3; BatchNorm2d 64; Tanh];
              Sequential [ConvTranspose2d 64 256 5 4 2 3; BatchNorm2d 256;
                          Tanh]], 16, 256)
  /\ while 4 D.model_cond (D.model_body Tanh) (D.model_init 128 Tanh)
     = Some ([Sequential [Linear 128 64; Tanh];
              Sequential [Linear 64 32; BatchNorm1d 32; Tanh];
              Sequential [Linear 32 16; BatchNorm1d 16; Tanh]], 16).
Proof. repeat split; reflexivity. Qed.

(** ** Shapes through the layers *)

Lemma module_shape_Sequential training ms sh :
  module_shape training (Sequential ms) sh = sequential_shape training ms sh.
Proof.
  revert sh. induction ms as [|m ms IH]; intros sh; [reflexivity|].
  simpl. destruct (module_shape training m sh) as [sh'|e]; simpl; [|reflexivity].
  rewrite <- IH. reflexivity.
Qed.

Lemma sequential_shape_app training ms1 ms2 sh sh' :
  sequential_shape training ms1 sh = Ok sh' ->
  sequential_shape training (ms1 ++ ms2) sh
  = sequential_shape training ms2 sh'.
Proof.
  revert sh. induction ms1 as [|m ms1 IH]; intros sh Hrun; simpl in *.
  - congruence.
  - destruct (module_shape training m sh) as [sh1|e]; simpl in *;
      [auto|discriminate].
Qed.

Lemma LeakyReLU_shape_preserving slope : shape_preserving (LeakyReLU slope).
Proof. intros training sh. reflexivity. Qed.

Lemma conv2d_shape_4d n c h w cout k s p :
  k <= h + 2 * p -> k <= w + 2 * p ->
  conv2d_shape c cout k s p [n; c; h; w]
  = Ok [n; cout; conv_out h k s p; conv_out w k s p].
Proof.
  intros Hh Hw. unfold conv2d_shape.
  rewrite decide_True by reflexivity.
  rewrite decide_True by (split; assumption). reflexivity.
Qed.

Lemma conv_transpose2d_shape_4d n c h w cout k s p op :
  op < s -> 0 < conv_transpose_out h k s p op ->
  0 < conv_transpose_out w k s p op ->
  conv_transpose2d_shape c cout k s p op [n; c; h; w]
  = Ok [n; cout; conv_transpose_out h k s p op;
        conv_transpose_out w k s p op].
Proof.
  intros Hop Hh Hw. unfold conv_transpose2d_shape.
  rewrite decide_True by reflexivity.
  rewrite decide_True by assumption.
  rewrite decide_True by (split; assumption). reflexivity.
Qed.

(** Batch normalisation accepts a batch in evaluation mode, and in training
    mode unless it holds a single value per channel. *)
Lemma verify_batch_size_ok training n c rest :
  (training = true -> n * numel rest <> 1) ->
  verify_batch_size training (n :: c :: rest) = Ok tt.
Proof.
  intros Hn. unfold verify_batch_size. destruct training; [|reflexivity].
  rewrite bool_decide_eq_false_2 by auto. reflexivity.
Qed.

Lemma batch_norm2d_shape_4d training n c h w :
  (training = true -> n <> 1) -> 0 <= n -> 1 <= h -> 1 <= w ->
  batch_norm2d_shape training c [n; c; h; w] = Ok [n; c; h; w].
Proof.
  intros Hn Hn0 Hh Hw. unfold batch_norm2d_shape, batch_norm_shape.
  rewrite verify_batch_size_ok.
  - simpl. rewrite decide_True by reflexivity. reflexivity.
  - intros Ht. specialize (Hn Ht). simpl. nia.
Qed.

Lemma batch_norm1d_shape_2d training n c :
  (training = true -> n <> 1) ->
  batch_norm1d_shape training c [n; c] = Ok [n; c].
Proof.
  intros Hn. unfold batch_norm1d_shape, batch_norm_shape.
  rewrite verify_batch_size_ok.
  - simpl. rewrite decide_True by reflexivity. reflexivity.
  - intros Ht. specialize (Hn Ht). simpl. lia.
Qed.

Lemma linear_shape_2d n i o : linear_shape i o [n; i] = Ok [n; o].
Proof.
  unfold linear_shape. simpl. rewrite decide_True by reflexivity. reflexivity.
Qed.

Ltac simpl_filter :=
  repeat first [ rewrite filter_nil
               | rewrite filter_cons_True by lia
               | rewrite filter_cons_False by lia ].

(** [t.view(-1, c * 1 * 1)] on a [(n, c, 1, 1)] tensor and
    [t.view(-1, c, 1, 1)] on a [(n, c)] tensor. *)
Lemma view_flatten n c :
  0 < c -> view_shape [n; c; 1; 1] [-1; c * 1 * 1] = Ok [n; c].
Proof.
  intros Hc. unfold view_shape.
  replace (c * 1 * 1) with c by lia.
  cbn [existsb].
  replace (-1 <? -1) with false by reflexivity.
  replace (c <? -1) with false by (symmetry; apply Z.ltb_ge; lia).
  cbn [orb]. simpl_filter. cbn [length].
  assert (Hk : numel [c] = c) by (simpl; lia).
  assert (Hn : numel [n; c; 1; 1] = n * c) by (simpl; lia).
  rewrite Hk, Hn.
  rewrite decide_False by lia.
  rewrite decide_True by (apply Z.mod_mul; lia).
  cbn [map]. rewrite decide_True by reflexivity.
  rewrite decide_False by lia.
  rewrite Z.div_mul by lia. reflexivity.
Qed.

Lemma view_unflatten n c :
  0 < c -> view_shape [n; c] [-1; c; 1; 1] = Ok [n; c; 1; 1].
Proof.
  intros Hc. unfold view_shape.
  cbn [existsb].
  replace (-1 <? -1) with false by reflexivity.
  replace (c <? -1) with false by (symmetry; apply Z.ltb_ge; lia).
  replace (1 <? -1) with false by reflexivity.
  cbn [orb]. simpl_filter. cbn [length].
  assert (Hk : numel [c; 1; 1] = c) by (simpl; lia).
  assert (Hn : numel [n; c] = n * c) by (simpl; lia).
  rewrite Hk, Hn.
  rewrite decide_False by lia.
  rewrite decide_True by (apply Z.mod_mul; lia).
  cbn [map]. rewrite decide_True by reflexivity.
  rewrite !decide_False by lia.
  rewrite Z.div_mul by lia. reflexivity.
Qed.

Lemma pow2_pos (j : nat) : 0 < 2 ^ Z.of_nat j.
Proof. apply Z.pow_pos_nonneg; lia. Qed.

Lemma pow2_succ (j : nat) : 2 ^ Z.of_nat (S j) = 2 * 2 ^ Z.of_nat j.
Proof. rewrite Nat2Z.inj_succ. apply Z.pow_succ_r. lia. Qed.

Section GeneratorShapes.
Variables (training : bool) (n : Z) (nonlinearity : module).
Hypothesis Hnl : shape_preserving nonlinearity.
Hypothesis Hn0 : 0 <= n.
Hypothesis Hn1 : training = true -> n <> 1.

Lemma encoder_block_shape c a :
  1 <= a ->
  module_shape training
    (Sequential [Conv2d c (c * 4) 5 4 2; BatchNorm2d (c * 4); nonlinearity])
    [n; c; a; a]
  = Ok [n; c * 4; conv_out a 5 4 2; conv_out a 5 4 2].
Proof.
  intros Ha.
  assert (Hout : 1 <= conv_out a 5 4 2)
    by (unfold conv_out; Z.div_mod_to_equations; lia).
  rewrite module_shape_Sequential. cbn [sequential_shape module_shape].
  rewrite conv2d_shape_4d by lia. cbn [bind].
  rewrite batch_norm2d_shape_4d by assumption. cbn [bind].
  rewrite Hnl. reflexivity.
Qed.

Lemma decoder_block_shape c a :
  1 <= a ->
  module_shape training
    (Sequential [ConvTranspose2d c (c * 4) 5 4 2 3; BatchNorm2d (c * 4);
                 nonlinearity])
    [n; c; a; a]
  = Ok [n; c * 4; a * 4; a * 4].
Proof.
  intros Ha.
  assert (Hout : conv_transpose_out a 5 4 2 3 = a * 4)
    by (unfold conv_transpose_out; lia).
  rewrite module_shape_Sequential. cbn [sequential_shape module_shape].
  rewrite conv_transpose2d_shape_4d by lia. cbn [bind].
  rewrite Hout.
  rewrite batch_norm2d_shape_4d by (assumption || lia). cbn [bind].
  rewrite Hnl. reflexivity.
Qed.

Lemma encoder_inv_step input s :
  encoder_inv training n input s -> G.encoder_cond s = true ->
  encoder_inv training n input (G.encoder_body nonlinearity s).
Proof.
  destruct s as [[enc size] c]. intros (Hc & Hsize & Hshape) Hcond.
  unfold G.encoder_cond in Hcond. apply Z.ltb_lt in Hcond.
  destruct Hsize as [[j Hj]|Hz]; [|lia].
  unfold G.encoder_body, encoder_inv.
  split; [lia|].
  rewrite (sequential_shape_app _ _ _ _ _ Hshape).
  cbn [sequential_shape].
  replace (Z.max 1 size) with size by lia.
  rewrite encoder_block_shape by lia. cbn [bind].
  destruct j as [|[|j]].
  - simpl in Hj. lia.
  - simpl in Hj. subst size. split; [right; reflexivity|reflexivity].
  - rewrite !pow2_succ in Hj. pose proof (pow2_pos j) as Hpos.
    assert (Hdiv : size / 4 = 2 ^ Z.of_nat j)
      by (Z.div_mod_to_equations; lia).
    assert (Hout : conv_out size 5 4 2 = 2 ^ Z.of_nat j)
      by (unfold conv_out; Z.div_mod_to_equations; lia).
    rewrite Hdiv, Hout. split; [left; eauto|].
    replace (Z.max 1 (2 ^ Z.of_nat j)) with (2 ^ Z.of_nat j) by lia.
    reflexivity.
Qed.

Lemma decoder_inv_step input_size step_channels s :
  decoder_inv training n step_channels s ->
  G.decoder_cond input_size s = true ->
  decoder_inv training n step_channels (G.decoder_body nonlinearity s).
Proof.
  destruct s as [[dec size] c]. intros (Hc & Hsize & Hshape) _.
  unfold G.decoder_body, decoder_inv.
  split; [lia|]. split; [lia|].
  rewrite (sequential_shape_app _ _ _ _ _ Hshape).
  cbn [sequential_shape].
  rewrite decoder_block_shape by lia. reflexivity.
Qed.

(** The encoder of a generator built for a power-of-two [input_size]
    reduces an image to one pixel per channel, and [encoder_fc] takes as
    many features as there are channels then. *)
Lemma encoder_shape fuel (k : nat) input_channels step_channels enc size c :
  0 < step_channels ->
  while fuel G.encoder_cond (G.encoder_body nonlinearity)
    (G.encoder_init (2 ^ Z.of_nat (S k)) input_channels step_channels
       nonlinearity) = Some (enc, size, c) ->
  0 < c
  /\ module_shape training (Sequential enc)
       [n; input_channels; 2 ^ Z.of_nat (S k); 2 ^ Z.of_nat (S k)]
     = Ok [n; c; 1; 1].
Proof.
  intros Hstep Hrun.
  pose proof (pow2_pos k) as Hpos.
  assert (Hhalf : 2 ^ Z.of_nat (S k) / 2 = 2 ^ Z.of_nat k)
    by (rewrite pow2_succ; Z.div_mod_to_equations; lia).
  assert (Hout : conv_out (2 ^ Z.of_nat (S k)) 5 2 2 = 2 ^ Z.of_nat k)
    by (unfold conv_out; rewrite pow2_succ; Z.div_mod_to_equations; lia).
  assert (Hinit : encoder_inv training n
                    [n; input_channels; 2 ^ Z.of_nat (S k);
                     2 ^ Z.of_nat (S k)]
                    (G.encoder_init (2 ^ Z.of_nat (S k)) input_channels
                       step_channels nonlinearity)).
  { unfold G.encoder_init, encoder_inv. rewrite Hhalf.
    split; [assumption|]. split; [left; eauto|].
    cbn [sequential_shape]. rewrite module_shape_Sequential.
    cbn [sequential_shape module_shape].
    rewrite conv2d_shape_4d by (rewrite pow2_succ; lia). cbn [bind].
    rewrite Hnl. cbn [bind]. rewrite Hout.
    replace (Z.max 1 (2 ^ Z.of_nat k)) with (2 ^ Z.of_nat k) by lia.
    reflexivity. }
  destruct (while_invariant _ _ _ (encoder_inv_step _) _ _ _ Hinit Hrun)
    as [(Hc & Hsize & Hshape) Hcond].
  unfold G.encoder_cond in Hcond. apply Z.ltb_ge in Hcond.
  split; [assumption|].
  rewrite module_shape_Sequential, Hshape.
  replace (Z.max 1 size) with 1 by lia. reflexivity.
Qed.

(** The decoder maps a [(n, step_channels, 1, 1)] tensor to a square image
    with [input_channels] channels. *)
Lemma decoder_shape fuel input_size input_channels step_channels dec size c :
  0 < step_channels ->
  while fuel (G.decoder_cond input_size) (G.decoder_body nonlinearity)
    (G.decoder_init step_channels) = Some (dec, size, c) ->
  1 <= size
  /\ module_shape training
       (Sequential (dec ++ [ConvTranspose2d c input_channels 5 2 2 1]))
       [n; step_channels; 1; 1]
     = Ok [n; input_channels; 2 * size; 2 * size].
Proof.
  intros Hstep Hrun.
  assert (Hinit : decoder_inv training n step_channels
                    (G.decoder_init step_channels)).
  { unfold G.decoder_init, decoder_inv. auto with zarith. }
  destruct (while_invariant _ _ _
              (decoder_inv_step input_size step_channels) _ _ _ Hinit Hrun)
    as [(Hc & Hsize & Hshape) _].
  split; [assumption|].
  rewrite module_shape_Sequential.
  rewrite (sequential_shape_app _ _ _ _ _ Hshape).
  cbn [sequential_shape module_shape].
  assert (Hout : conv_transpose_out size 5 2 2 1 = 2 * size)
    by (unfold conv_transpose_out; lia).
  rewrite conv_transpose2d_shape_4d by lia. rewrite Hout. reflexivity.
Qed.

End GeneratorShapes.

(** [sample] on a latent batch: through [decoder_fc], reshaped to one pixel
    per channel, through [decoder]. *)
Lemma sample_latent (self : G.t) (x : sym) n enc step sh :
  G.decoder_fc self = Linear enc step -> 0 < step ->
  shape x = [n; enc] ->
  module_shape (G.training self) (G.decoder self) [n; step; 1; 1] = Ok sh ->
  G.sample self x
  = Ok (mkSym sh (Call "decoder"
                    (View [-1; step; 1; 1] (Call "decoder_fc" (term x))))).
Proof.
  intros Hfc Hstep Hx Hdec.
  unfold G.sample. cbn [module_call tensor_size tensor_view Sym].
  unfold sym_module_call at 1. rewrite Hfc, Hx. cbn [module_shape].
  rewrite linear_shape_2d. cbn [bind].
  unfold sym_size. cbn [shape].
  change (size_at [n; step] 1) with (Ok step). cbn [bind].
  unfold sym_view. cbn [shape term].
  rewrite view_unflatten by assumption. cbn [bind].
  unfold sym_module_call. cbn [shape term]. rewrite Hdec. reflexivity.
Qed.

(** [forward] in training mode on an image batch that the encoder reduces
    to one pixel per channel. *)
Lemma forward_training_image (self : G.t) (x : sym) n c enc step sh input :
  G.training self = true ->
  G.encoder_fc self = Linear c enc -> G.decoder_fc self = Linear enc step ->
  0 < c -> 0 < step ->
  shape x = input ->
  module_shape true (G.encoder self) input = Ok [n; c; 1; 1] ->
  module_shape true (G.decoder self) [n; step; 1; 1] = Ok sh ->
  let encoding :=
    mkSym [n; enc]
      (Call "encoder_fc" (View [-1; c * 1 * 1] (Call "encoder" (term x)))) in
  let recon :=
    mkSym sh (Call "decoder"
                (View [-1; step; 1; 1] (Call "decoder_fc" (term encoding)))) in
  G.forward self x = Ok (Tuple2 recon encoding)
  /\ G.sample self encoding = Ok recon.
Proof.
  intros Htr Hefc Hdfc Hc Hstep Hx Henc Hdec encoding recon.
  assert (Hsample : G.sample self encoding = Ok recon).
  { apply (sample_latent self encoding n enc step sh); auto.
    rewrite Htr. assumption. }
  split; [|assumption].
  unfold G.forward. rewrite Htr.
  cbn [module_call tensor_size tensor_view Sym].
  unfold sym_module_call at 1. rewrite Hx, Henc. cbn [bind].
  unfold sym_size. cbn [shape].
  change (size_at [n; c; 1; 1] 1) with (Ok c).
  change (size_at [n; c; 1; 1] 2) with (Ok 1).
  change (size_at [n; c; 1; 1] 3) with (Ok 1). cbn [bind].
  unfold sym_view. cbn [shape term].
  rewrite view_flatten by assumption. cbn [bind].
  unfold sym_module_call at 1. cbn [shape term]. rewrite Hefc.
  cbn [module_shape]. rewrite linear_shape_2d. cbn [bind].
  fold encoding. rewrite Hsample. reflexivity.
Qed.

(** C3 (as amended): a generator built for an [input_size] that is a power
    of two, at least 2, with positive channel counts, encodes and decodes.
    In training mode, on a batch [x] of shape
    [(n, input_channels, input_size, input_size)] with [n] other than 1,
    [forward(x)] returns the pair [(sample(encoding), encoding)], where
    [encoding] has shape [(n, encoding_dims)] and is [encoder_fc] applied to
    the flattened output of [encoder] on [x], and the reconstruction is a
    square image batch with [input_channels] channels computed by
    [decoder] from [decoder_fc(encoding)]. *)
Theorem generator_forward_training
    (k fuel : nat) (encoding_dims input_channels step_channels n : Z)
    (nonlinearity : module) (x : sym) :
  (1 <= k)%nat ->
  0 < encoding_dims -> 0 < input_channels -> 0 < step_channels ->
  shape_preserving nonlinearity ->
  0 <= n -> n <> 1 ->
  (enough_fuel (2 ^ Z.of_nat k) <= fuel)%nat ->
  shape x = [n; input_channels; 2 ^ Z.of_nat k; 2 ^ Z.of_nat k] ->
  exists (g : G.t) (recon encoding : sym) (dims dims' : list Z) (h : Z),
    G.__init__ fuel encoding_dims (2 ^ Z.of_nat k) input_channels
      step_channels nonlinearity = Some g
    /\ G.training g = true
    /\ G.forward g x = Ok (Tuple2 recon encoding)
    /\ G.sample g encoding = Ok recon
    /\ shape encoding = [n; encoding_dims]
    /\ term encoding = Call "encoder_fc" (View dims (Call "encoder" (term x)))
    /\ shape recon = [n; input_channels; h; h]
    /\ term recon
       = Call "decoder" (View dims' (Call "decoder_fc" (term encoding))).
Proof.
  intros Hk Henc Hic Hstep Hnl Hn0 Hn1 Hfuel Hx.
  destruct k as [|k]; [lia|].
  destruct (generator_init_returns fuel encoding_dims (2 ^ Z.of_nat (S k))
              input_channels step_channels nonlinearity Hfuel) as [g Hg].
  exists g. pose proof Hg as Hinit. unfold G.__init__ in Hg.
  destruct (while fuel G.encoder_cond _ _) as [[[enc size] c]|] eqn:Hloop1;
    [|discriminate].
  destruct (while fuel (G.decoder_cond _) _ _) as [[[dec size'] c']|]
    eqn:Hloop2; [|discriminate].
  injection Hg as <-.
  destruct (encoder_shape true n nonlinearity Hnl Hn0 (fun _ => Hn1) fuel k
              input_channels step_channels enc size c Hstep Hloop1)
    as [Hc Hencoder].
  destruct (decoder_shape true n nonlinearity Hnl Hn0 (fun _ => Hn1) fuel
              (2 ^ Z.of_nat (S k)) input_channels step_channels dec size' c'
              Hstep Hloop2)
    as [Hsize Hdecoder].
  destruct (forward_training_image
              {| G.encoding_dims := encoding_dims;
                 G.encoder := Sequential enc;
                 G.encoder_fc := Linear c encoding_dims;
                 G.decoder_fc := Linear encoding_dims step_channels;
                 G.decoder :=
                   Sequential
                     (dec ++ [ConvTranspose2d c' input_channels 5 2 2 1]);
                 G.training := true |} x n c encoding_dims step_channels
              _ _ eq_refl eq_refl eq_refl Hc Hstep Hx Hencoder Hdecoder)
    as [Hfwd Hsample].
  do 5 eexists.
  split; [exact Hinit|]. split; [reflexivity|].
  split; [exact Hfwd|]. split; [exact Hsample|].
  repeat split; reflexivity.
Qed.

Lemma generator_forward_training_witness :
  exists (g : G.t) (recon encoding : sym) (dims dims' : list Z) (h : Z),
    G.__init__ 40 128 (2 ^ Z.of_nat 5) 1 16 default_nonlinearity = Some g
    /\ G.training g = true
    /\ G.forward g (mkSym [64; 1; 32; 32] (Input "x"))
       = Ok (Tuple2 recon encoding)
    /\ G.sample g encoding = Ok recon
    /\ shape encoding = [64; 128]
    /\ term encoding
       = Call "encoder_fc" (View dims (Call "encoder" (Input "x")))
    /\ shape recon = [64; 1; h; h]
    /\ term recon
       = Call "decoder" (View dims' (Call "decoder_fc" (term encoding))).
Proof.
  apply (generator_forward_training 5 40 128 1 16 64 default_nonlinearity
           (mkSym [64; 1; 32; 32] (Input "x"))).
  - lia.
  - lia.
  - lia.
  - lia.
  - apply LeakyReLU_shape_preserving.
  - lia.
  - lia.
  - vm_compute. lia.
  - reflexivity.
Defined.

(** C3 as stated fails: for [input_size = 10] the encoder leaves a 2 x 2
    image, which [encoder_fc] rejects; and for a batch of one image the
    batch normalisation of the encoder raises in training mode. *)
Lemma generator_forward_training_fails :
  (exists g,
      G.__init__ 20 128 10 1 16 default_nonlinearity = Some g
      /\ G.training g = true
      /\ G.forward g (mkSym [2; 1; 10; 10] (Input "x"))
         = Raise (RuntimeError "mat1 and mat2 shapes cannot be multiplied"))
  /\ (exists g,
         G.__init__ 40 128 32 1 16 default_nonlinearity = Some g
         /\ G.training g = true
         /\ G.forward g (mkSym [1; 1; 32; 32] (Input "x"))
            = Raise (ValueError
                       "Expected more than 1 value per channel when training")).
Proof.
  split; eexists; (split; [vm_compute; reflexivity|]);
    split; vm_compute; reflexivity.
Qed.

(** C8 (as amended): with the default configuration, in training mode, for
    every batch [x] of shape [(n, 1, 32, 32)] with [n] other than 1, the
    reconstruction returned by [forward(x)] has the shape of [x] and the
    encoding has shape [(n, 128)]. *)
Theorem default_generator_inverts_shape (fuel : nat) (n : Z) (x : sym) :
  (enough_fuel 32 <= fuel)%nat ->
  0 <= n -> n <> 1 ->
  shape x = [n; 1; 32; 32] ->
  exists (g : G.t) (recon encoding : sym),
    network_generator fuel = Some g
    /\ G.training g = true
    /\ G.forward g x = Ok (Tuple2 recon encoding)
    /\ shape recon = shape x
    /\ shape recon = [n; 1; 32; 32]
    /\ shape encoding = [n; 128].
Proof.
  intros Hfuel Hn0 Hn1 Hx.
  assert (Hnl : shape_preserving default_nonlinearity)
    by apply LeakyReLU_shape_preserving.
  unfold network_generator.
  destruct (generator_init_returns fuel 128 32 1 16 default_nonlinearity
              Hfuel) as [g Hg].
  exists g. pose proof Hg as Hinit. unfold G.__init__ in Hg.
  destruct (while fuel G.encoder_cond _ _) as [[[enc size] c]|] eqn:Hloop1;
    [|discriminate].
  destruct (while fuel (G.decoder_cond _) _ _) as [[[dec size'] c']|]
    eqn:Hloop2; [|discriminate].
  injection Hg as <-.
  assert (Hsize' : size' = 16).
  { assert (Hrun : exists dec0 c0,
               while 33 (G.decoder_cond 32)
                 (G.decoder_body default_nonlinearity) (G.decoder_init 16)
               = Some (dec0, 16, c0)) by (do 2 eexists; reflexivity).
    destruct Hrun as (dec0 & c0 & Hrun).
    apply (while_fuel_mono _ _ 33 fuel) in Hrun; [|exact Hfuel].
    rewrite Hrun in Hloop2. congruence. }
  subst size'.
  change 32 with (2 ^ Z.of_nat 5) in Hloop1.
  destruct (encoder_shape true n default_nonlinearity Hnl Hn0
              (fun _ => Hn1) fuel 4 1 16 enc size c ltac:(lia) Hloop1)
    as [Hc Hencoder].
  destruct (decoder_shape true n default_nonlinearity Hnl Hn0
              (fun _ => Hn1) fuel 32 1 16 dec 16 c' ltac:(lia) Hloop2)
    as [_ Hdecoder].
  change (2 ^ Z.of_nat 5) with 32 in Hencoder.
  destruct (forward_training_image
              {| G.encoding_dims := 128;
                 G.encoder := Sequential enc;
                 G.encoder_fc := Linear c 128;
                 G.decoder_fc := Linear 128 16;
                 G.decoder :=
                   Sequential (dec ++ [ConvTranspose2d c' 1 5 2 2 1]);
                 G.training := true |} x n c 128 16
              _ _ eq_refl eq_refl eq_refl Hc ltac:(lia) Hx Hencoder Hdecoder)
    as [Hfwd _].
  do 2 eexists.
  split; [exact Hinit|]. split; [reflexivity|].
  split; [exact Hfwd|].
  rewrite Hx. repeat split; reflexivity.
Qed.

Lemma default_generator_inverts_shape_witness :
  exists (g : G.t) (recon encoding : sym),
    network_generator 33 = Some g
    /\ G.training g = true
    /\ G.forward g (mkSym [64; 1; 32; 32] (Input "real_inputs"))
       = Ok (Tuple2 recon encoding)
    /\ shape recon = [64; 1; 32; 32]
    /\ shape recon = [64; 1; 32; 32]
    /\ shape encoding = [64; 128].
Proof.
  apply (default_generator_inverts_shape 33 64
           (mkSym [64; 1; 32; 32] (Input "real_inputs"))).
  - vm_compute. lia.
  - lia.
  - lia.
  - reflexivity.
Defined.

(** C8 as stated fails for a batch of a single image: in training mode the
    last batch normalisation of the encoder sees one value per channel and
    raises, so no reconstruction is returned. *)
Lemma default_generator_single_image_fails :
  exists g,
    network_generator 33 = Some g
    /\ G.training g = true
    /\ shape (mkSym [1; 1; 32; 32] (Input "x")) = [1; 1; 32; 32]
    /\ G.forward g (mkSym [1; 1; 32; 32] (Input "x"))
       = Raise (ValueError
                  "Expected more than 1 value per channel when training").
Proof.
  eexists. split; [vm_compute; reflexivity|].
  repeat split; vm_compute; reflexivity.
Qed.

(** ** Evaluation mode *)

Ltac bind_inv H :=
  match type of H with
  | bind ?c _ = Ok _ =>
      let a := fresh "a" in
      let E := fresh "E" in
      destruct c as [a|?] eqn:E; cbn [bind] in H; [|discriminate H]
  end.

(** C4: when the generator is not in training mode, [forward(x)] is
    [sample(x)]: it returns a single tensor, computed from [x] by
    [decoder_fc], a reshape and [decoder] only.  The result does not depend
    on the encoder layers, which are never applied.  In training mode the
    value returned is a pair, so input and output of [forward] differ
    between the two modes.  A latent batch [x] that fits [decoder_fc] is
    decoded whenever the decoder accepts the reshaped batch. *)
Theorem generator_forward_eval (self : G.t) (x : sym) :
  G.training self = false ->
  G.forward self x = (let* r := G.sample self x in Ok (Single r))
  /\ (forall v, G.forward self x = Ok v ->
        exists r dims,
          v = Single r
          /\ G.sample self x = Ok r
          /\ term r = Call "decoder" (View dims (Call "decoder_fc" (term x)))
          /\ attrs_called (term r)
             = ["decoder"; "decoder_fc"] ++ attrs_called (term x))
  /\ (forall self' : G.t,
        G.training self' = false ->
        G.decoder_fc self' = G.decoder_fc self ->
        G.decoder self' = G.decoder self ->
        G.forward self' x = G.forward self x)
  /\ (forall v, G.forward (G.train true self) x = Ok v ->
        exists recon encoding, v = Tuple2 recon encoding)
  /\ (forall n enc step sh,
        G.decoder_fc self = Linear enc step -> 0 < step ->
        shape x = [n; enc] ->
        module_shape false (G.decoder self) [n; step; 1; 1] = Ok sh ->
        G.forward self x
        = Ok (Single
                (mkSym sh
                   (Call "decoder"
                      (View [-1; step; 1; 1]
                         (Call "decoder_fc" (term x))))))).
Proof.
  intros Heval. split; [|split; [|split; [|split]]].
  - unfold G.forward. rewrite Heval. reflexivity.
  - intros v Hv. unfold G.forward in Hv. rewrite Heval in Hv.
    bind_inv Hv. injection Hv as <-.
    pose proof E as Hsample.
    unfold G.sample in E. cbn [module_call tensor_size tensor_view Sym] in E.
    bind_inv E. bind_inv E. bind_inv E.
    unfold sym_module_call in E, E0. unfold sym_view in E2.
    bind_inv E. bind_inv E0. bind_inv E2.
    injection E as <-. injection E0 as <-. injection E2 as <-.
    cbn [term]. do 2 eexists. repeat split; reflexivity.
  - intros self' Heval' Hfc Hdec.
    unfold G.forward, G.sample. rewrite Heval, Heval', Hfc, Hdec.
    reflexivity.
  - intros v Hv. unfold G.forward in Hv. cbn [G.train G.training] in Hv.
    repeat bind_inv Hv. injection Hv as <-. eauto.
  - intros n enc step sh Hfc Hstep Hx Hdec.
    unfold G.forward. rewrite Heval.
    rewrite (sample_latent self x n enc step sh Hfc Hstep Hx)
      by (rewrite Heval; exact Hdec).
    reflexivity.
Qed.

Lemma generator_forward_eval_witness :
  exists g,
    network_generator 33 = Some g
    /\ G.forward (G.eval g) (mkSym [7; 128] (Input "noise"))
       = Ok (Single
               (mkSym [7; 1; 32; 32]
                  (Call "decoder"
                     (View [-1; 16; 1; 1]
                        (Call "decoder_fc" (Input "noise"))))))
    /\ forall v,
        G.forward (G.train true (G.eval g)) (mkSym [7; 128] (Input "noise"))
        = Ok v ->
        exists recon encoding, v = Tuple2 recon encoding.
Proof.
  eexists. split; [vm_compute; reflexivity|].
  match goal with
  | |- G.forward (G.eval ?g) ?x = _ /\ _ =>
      destruct (generator_forward_eval (G.eval g) x eq_refl)
        as (Hfwd & _ & _ & Hpair & _)
  end.
  split; [|exact Hpair].
  rewrite Hfwd. vm_compute. reflexivity.
Defined.

(** In evaluation mode a generator built by the constructor decodes every
    latent batch, of any size, into a batch of square images. *)
Lemma eval_generator_decodes_latent
    (fuel : nat) (encoding_dims input_size input_channels step_channels n : Z)
    (nonlinearity : module) (z : sym) :
  0 < step_channels -> shape_preserving nonlinearity -> 0 <= n ->
  (enough_fuel input_size <= fuel)%nat ->
  shape z = [n; encoding_dims] ->
  exists (g : G.t) (r : sym) (h : Z),
    G.__init__ fuel encoding_dims input_size input_channels step_channels
      nonlinearity = Some g
    /\ G.forward (G.eval g) z = Ok (Single r)
    /\ shape r = [n; input_channels; h; h].
Proof.
  intros Hstep Hnl Hn0 Hfuel Hz.
  destruct (generator_init_returns fuel encoding_dims input_size
              input_channels step_channels nonlinearity Hfuel) as [g Hg].
  exists g. pose proof Hg as Hinit. unfold G.__init__ in Hg.
  destruct (while fuel G.encoder_cond _ _) as [[[enc size] c]|];
    [|discriminate].
  destruct (while fuel (G.decoder_cond _) _ _) as [[[dec size'] c']|]
    eqn:Hloop; [|discriminate].
  injection Hg as <-.
  destruct (decoder_shape false n nonlinearity Hnl Hn0 ltac:(discriminate)
              fuel input_size input_channels step_channels dec size' c'
              Hstep Hloop) as [_ Hdecoder].
  do 2 eexists. split; [exact Hinit|].
  unfold G.forward. cbn [G.eval G.train G.training].
  erewrite (sample_latent _ z n encoding_dims step_channels);
    [|reflexivity|exact Hstep|exact Hz|exact Hdecoder].
  split; reflexivity.
Qed.

(** In evaluation mode the default generator takes latent batches and
    rejects image batches; in training mode it is the other way round. *)
Example default_generator_modes :
  exists g,
    network_generator 33 = Some g
    /\ G.forward (G.eval g) (mkSym [7; 1; 32; 32] (Input "x"))
       = Raise (RuntimeError "mat1 and mat2 shapes cannot be multiplied")
    /\ G.forward g (mkSym [7; 128] (Input "noise"))
       = Raise (RuntimeError
                  "Expected 3D (unbatched) or 4D (batched) input to conv2d").
Proof.
  eexists. split; [vm_compute; reflexivity|].
  split; vm_compute; reflexivity.
Qed.

(** ** The discriminator *)

Lemma leaves_Sequential ms : leaves (Sequential ms) = flat_map leaves ms.
Proof.
  induction ms as [|m ms IH]; [reflexivity|].
  simpl in *. rewrite IH. reflexivity.
Qed.

Lemma model_inv_step training n input_dims slope s :
  (training = true -> n <> 1) ->
  model_inv training n input_dims s -> D.model_cond s = true ->
  model_inv training n input_dims (D.model_body (LeakyReLU slope) s).
Proof.
  destruct s as [model size]. intros Hn [Hmlp Hshape] _.
  unfold D.model_body, model_inv. split.
  - rewrite flat_map_app, forallb_app, Hmlp. reflexivity.
  - rewrite (sequential_shape_app _ _ _ _ _ Hshape).
    cbn [sequential_shape]. rewrite module_shape_Sequential.
    cbn [sequential_shape module_shape].
    rewrite linear_shape_2d. cbn [bind].
    rewrite batch_norm1d_shape_2d by assumption. reflexivity.
Qed.

(** C6 (as amended): the discriminator built with the default
    nonlinearity is a composition of [Linear], [BatchNorm1d] and
    [LeakyReLU] layers only, the last of them a [Linear] layer of output
    dimension 1; on a batch of shape [(n, input_dims)] it returns one logit
    per example, shape [(n, 1)], in evaluation mode for every [n] and in
    training mode for every [n] other than 1. *)
Theorem discriminator_is_mlp (fuel : nat) (input_dims : Z) :
  1 <= input_dims ->
  (enough_fuel input_dims <= fuel)%nat ->
  exists d : D.t,
    D.__init__ fuel input_dims default_nonlinearity = Some d
    /\ D.training d = true
    /\ forallb mlp_layer (leaves (D.model d)) = true
    /\ (exists i, last (leaves (D.model d)) = Some (Linear i 1))
    /\ forall (training : bool) (n : Z) (x : sym),
        shape x = [n; input_dims] ->
        0 <= n -> (training = true -> n <> 1) ->
        D.forward (D.train training d) x
        = Ok (mkSym [n; 1] (Call "model" (term x))).
Proof.
  intros Hdims Hfuel.
  destruct (discriminator_init_returns fuel input_dims default_nonlinearity
              Hfuel) as [d Hd].
  exists d. split; [exact Hd|]. unfold D.__init__ in Hd.
  destruct (while fuel D.model_cond _ _) as [[model size]|] eqn:Hloop;
    [|discriminate].
  injection Hd as <-. cbn [D.training D.model].
  split; [reflexivity|].
  assert (Hinv : forall training n, (training = true -> n <> 1) ->
                   model_inv training n input_dims (model, size)).
  { intros training n Hn.
    refine (proj1 (while_invariant _ _ (model_inv training n input_dims)
                     _ _ _ _ _ Hloop)).
    - intros s. apply model_inv_step. exact Hn.
    - unfold D.model_init, model_inv, default_nonlinearity. split.
      + reflexivity.
      + cbn [sequential_shape]. rewrite module_shape_Sequential.
        cbn [sequential_shape module_shape].
        rewrite linear_shape_2d. reflexivity. }
  split; [|split].
  - destruct (Hinv false 0 ltac:(discriminate)) as [Hmlp _].
    rewrite leaves_Sequential, flat_map_app, forallb_app, Hmlp. reflexivity.
  - exists size. rewrite leaves_Sequential, flat_map_app. cbn [flat_map leaves].
    rewrite app_nil_r. apply last_snoc.
  - intros training n x Hx _ Hn.
    destruct (Hinv training n Hn) as [_ Hshape].
    unfold D.forward. cbn [D.train D.training D.model module_call Sym].
    unfold sym_module_call. rewrite Hx, module_shape_Sequential.
    rewrite (sequential_shape_app _ _ _ _ _ Hshape).
    cbn [sequential_shape module_shape].
    rewrite linear_shape_2d. reflexivity.
Qed.

Lemma discriminator_is_mlp_witness :
  exists d : D.t,
    D.__init__ 200 128 default_nonlinearity = Some d
    /\ D.training d = true
    /\ forallb mlp_layer (leaves (D.model d)) = true
    /\ (exists i, last (leaves (D.model d)) = Some (Linear i 1))
    /\ forall (training : bool) (n : Z) (x : sym),
        shape x = [n; 128] ->
        0 <= n -> (training = true -> n <> 1) ->
        D.forward (D.train training d) x
        = Ok (mkSym [n; 1] (Call "model" (term x))).
Proof.
  apply (discriminator_is_mlp 200 128).
  - lia.
  - vm_compute. lia.
Defined.

(** C6 as stated fails: a freshly built discriminator is in training mode,
    and on a batch of one latent vector its first [BatchNorm1d] raises. *)
Lemma discriminator_single_vector_fails :
  exists d,
    network_discriminator 200 = Some d
    /\ D.training d = true
    /\ shape (mkSym [1; 128] (Input "z")) = [1; D.input_dims d]
    /\ D.forward d (mkSym [1; 128] (Input "z"))
       = Raise (ValueError
                  "Expected more than 1 value per channel when training").
Proof.
  eexists. split; [vm_compute; reflexivity|].
  repeat split; vm_compute; reflexivity.
Qed.

(** ** The loss formulas *)

Lemma broadcast_rev_same (s : list Z) : broadcast_rev s s = Some s.
Proof.
  induction s as [|d s IH]; [reflexivity|].
  simpl. rewrite decide_True by reflexivity. rewrite IH. reflexivity.
Qed.

Lemma broadcast_shapes_same (s : list Z) : broadcast_shapes s s = Some s.
Proof.
  unfold broadcast_shapes. rewrite broadcast_rev_same. simpl.
  rewrite rev_involutive. reflexivity.
Qed.

(** C1: for a reconstruction batch of the shape of the real batch, and any
    discriminator logits [dgz], the generator loss is the scalar
    [0.999 * mse_loss(gen_inputs, real_inputs)
     + 0.001 * binary_cross_entropy_with_logits(dgz, ones_like(dgz))]. *)
Theorem generator_loss_forward (real_inputs gen_inputs dgz : sym) :
  shape gen_inputs = shape real_inputs ->
  GLoss.forward real_inputs gen_inputs dgz
  = Ok (scalar
          (Plus (Scale 0.999 (MseLoss (term gen_inputs) (term real_inputs)))
             (Scale 0.001
                (BCEWithLogits (term dgz) (OnesLike (term dgz))))))
  /\ (forall loss, GLoss.forward real_inputs gen_inputs dgz = Ok loss ->
        weighted_mse_plus_bce (term loss) = true).
Proof.
  intros Hshape.
  assert (Hfwd : GLoss.forward real_inputs gen_inputs dgz
                 = Ok (scalar
                         (Plus (Scale 0.999 (MseLoss (term gen_inputs)
                                               (term real_inputs)))
                            (Scale 0.001
                               (BCEWithLogits (term dgz)
                                  (OnesLike (term dgz))))))).
  { unfold GLoss.forward.
    cbn [mse_loss binary_cross_entropy_with_logits ones_like float_mul
         tensor_iadd Sym].
    unfold sym_mse_loss. rewrite Hshape, broadcast_shapes_same. cbn [bind].
    unfold sym_bce_with_logits. cbn [shape term].
    rewrite decide_True by reflexivity. cbn [bind].
    unfold sym_iadd, scalar. cbn [shape term].
    rewrite decide_True by reflexivity. reflexivity. }
  split; [exact Hfwd|].
  intros loss Hloss. rewrite Hfwd in Hloss. injection Hloss as <-.
  reflexivity.
Qed.

Lemma generator_loss_forward_witness :
  GLoss.forward (mkSym [64; 1; 32; 32] (Input "real_inputs"))
       (mkSym [64; 1; 32; 32] (Input "recon")) (mkSym [64; 1] (Input "dgz"))
  = Ok (scalar
          (Plus (Scale 0.999 (MseLoss (Input "recon") (Input "real_inputs")))
             (Scale 0.001
                (BCEWithLogits (Input "dgz") (OnesLike (Input "dgz")))))).
Proof.
  apply (generator_loss_forward
           (mkSym [64; 1; 32; 32] (Input "real_inputs"))
           (mkSym [64; 1; 32; 32] (Input "recon"))
           (mkSym [64; 1] (Input "dgz"))).
  reflexivity.
Defined.

(** C2 (as amended): for logits [dx] and [dgz] of equal shape the
    discriminator loss is the scalar
    [0.5 * binary_cross_entropy_with_logits(dx, ones_like(dx))
     + 0.5 * binary_cross_entropy_with_logits(dgz, zeros_like(dx))]:
    a weighted sum of two binary cross-entropy terms, not of a
    mean-squared-error term and a binary cross-entropy term. *)
Theorem discriminator_loss_forward (dx dgz : sym) :
  shape dgz = shape dx ->
  DLoss.forward dx dgz
  = Ok (scalar
          (Plus (Scale 0.5 (BCEWithLogits (term dx) (OnesLike (term dx))))
             (Scale 0.5 (BCEWithLogits (term dgz) (ZerosLike (term dx))))))
  /\ (forall loss, DLoss.forward dx dgz = Ok loss ->
        weighted_bce_plus_bce (term loss) = true
        /\ weighted_mse_plus_bce (term loss) = false).
Proof.
  intros Hshape.
  assert (Hfwd : DLoss.forward dx dgz
                 = Ok (scalar
                         (Plus (Scale 0.5 (BCEWithLogits (term dx)
                                             (OnesLike (term dx))))
                            (Scale 0.5 (BCEWithLogits (term dgz)
                                          (ZerosLike (term dx))))))).
  { unfold DLoss.forward.
    cbn [binary_cross_entropy_with_logits ones_like zeros_like float_mul
         tensor_iadd Sym].
    unfold sym_bce_with_logits. cbn [shape term].
    rewrite decide_True by reflexivity. cbn [bind].
    rewrite decide_True by (symmetry; exact Hshape). cbn [bind].
    unfold sym_iadd, scalar. cbn [shape term].
    rewrite decide_True by reflexivity. reflexivity. }
  split; [exact Hfwd|].
  intros loss Hloss. rewrite Hfwd in Hloss. injection Hloss as <-.
  split; reflexivity.
Qed.

Lemma discriminator_loss_forward_witness :
  DLoss.forward (mkSym [64; 1] (Input "dx")) (mkSym [64; 1] (Input "dgz"))
  = Ok (scalar
          (Plus (Scale 0.5 (BCEWithLogits (Input "dx") (OnesLike (Input "dx"))))
             (Scale 0.5
                (BCEWithLogits (Input "dgz") (ZerosLike (Input "dx")))))).
Proof.
  apply (discriminator_loss_forward (mkSym [64; 1] (Input "dx"))
           (mkSym [64; 1] (Input "dgz"))).
  reflexivity.
Defined.

(** C2 as stated fails: on logits of equal shape the discriminator loss is
    not a weighted sum of a mean-squared-error term and a binary
    cross-entropy term; it has no mean-squared-error term at all. *)
Lemma discriminator_loss_has_no_mse_term :
  shape (mkSym [64; 1] (Input "dx")) = shape (mkSym [64; 1] (Input "dgz"))
  /\ exists loss,
      DLoss.forward (mkSym [64; 1] (Input "dx")) (mkSym [64; 1] (Input "dgz"))
      = Ok loss
      /\ weighted_mse_plus_bce (term loss) = false
      /\ mse_terms (term loss) = 0%nat.
Proof.
  split; [reflexivity|].
  eexists. split; [vm_compute; reflexivity|].
  split; reflexivity.
Qed.

(** ** Training steps and the parameters they touch *)

Lemma only_touches_refl name o st : only_touches name o st st.
Proof.
  split; [reflexivity|]. exists []. rewrite app_nil_r. auto.
Qed.

Lemma only_touches_trans name o st1 st2 st3 :
  only_touches name o st1 st2 -> only_touches name o st2 st3 ->
  only_touches name o st1 st3.
Proof.
  intros [Hv1 (l1 & Hl1 & Hf1)] [Hv2 (l2 & Hl2 & Hf2)]. split.
  - intros p Hp. rewrite Hv2, Hv1 by assumption. reflexivity.
  - exists (l1 ++ l2). rewrite Hl2, Hl1, app_assoc. split; [reflexivity|].
    apply Forall_app. auto.
Qed.

Section Preserves.
Context (name : string) (o : owner).

Lemma lift_preserves {A : Type} (r : result A) :
  preserves (only_touches name o) (lift r).
Proof. intros st. apply only_touches_refl. Qed.

Lemma sbind_preserves {A B : Type} (c : stateful store A)
    (k : A -> stateful store B) :
  preserves (only_touches name o) c ->
  (forall a, preserves (only_touches name o) (k a)) ->
  preserves (only_touches name o) (sbind c k).
Proof.
  intros Hc Hk st. unfold sbind. specialize (Hc st).
  destruct (c st) as [[a|e] st']; [|exact Hc].
  eapply only_touches_trans; [exact Hc|apply Hk].
Qed.

Lemma backward_preserves loss :
  preserves (only_touches name o) (backward loss).
Proof.
  intros st. unfold backward. case_bool_decide.
  - split; [reflexivity|]. exists []. simpl. rewrite app_nil_r. auto.
  - apply only_touches_refl.
Qed.

Lemma zero_grad_preserves opt :
  opt_name opt = name ->
  preserves (only_touches name o) (zero_grad opt).
Proof.
  intros Hname st. split; [reflexivity|].
  exists [(opt_name opt, zero_grad_method)]. split; [reflexivity|].
  repeat constructor. exact Hname.
Qed.

Lemma step_param_other opt_name g (p q : param) v :
  p <> q -> step_param opt_name g q v !! p = v !! p.
Proof.
  intros Hne. unfold step_param.
  destruct (v !! q), (g !! q); try reflexivity.
  apply lookup_insert_ne. congruence.
Qed.

Lemma step_preserves opt :
  opt_name opt = name ->
  (forall p, p ∈ param_group opt -> p.1 <> o) ->
  preserves (only_touches name o) (step opt).
Proof.
  intros Hname Hgroup st. split.
  - intros p Hp. simpl.
    induction (param_group opt) as [|q ps IH]; [reflexivity|].
    simpl. rewrite step_param_other.
    + apply IH. intros p' Hp'. apply Hgroup. right. exact Hp'.
    + intros ->. apply (Hgroup q); [left|exact Hp].
  - exists [(opt_name opt, step_method)]. split; [reflexivity|].
    repeat constructor. exact Hname.
Qed.
End Preserves.

Ltac preserves_step :=
  first [ apply lift_preserves
        | apply backward_preserves
        | apply zero_grad_preserves; reflexivity
        | apply step_preserves; [reflexivity|assumption]
        | apply sbind_preserves; [|intros] ].

(** Follows a run that returned a value through its statements. *)
Ltac follow_run :=
  unfold sbind, lift, zero_grad, step, backward;
  repeat match goal with
    | a : (_ * _)%type |- _ => destruct a; simpl
    | |- context [bool_decide ?P] =>
        destruct (bool_decide P); simpl; [|discriminate]
    | |- context [match ?c with Ok _ => _ | Raise _ => _ end] =>
        destruct c as [?|?]; simpl; [|discriminate]
    end.

Lemma generator_train_ops_preserves generator discriminator
    optimizer_generator real_inputs device batch_size :
  (forall p, p ∈ param_group optimizer_generator -> p.1 <> Discriminator) ->
  preserves (only_touches (opt_name optimizer_generator) Discriminator)
    (GLoss.train_ops generator discriminator optimizer_generator
       real_inputs device batch_size).
Proof.
  intros Hgroup. unfold GLoss.train_ops.
  repeat (preserves_step;
          try match goal with a : (_ * _)%type |- _ => destruct a end).
Qed.

Lemma discriminator_train_ops_preserves generator discriminator
    optimizer_discriminator real_inputs device batch_size :
  (forall p, p ∈ param_group optimizer_discriminator -> p.1 <> Generator) ->
  preserves (only_touches (opt_name optimizer_discriminator) Generator)
    (DLoss.train_ops generator discriminator optimizer_discriminator
       real_inputs device batch_size).
Proof.
  intros Hgroup. unfold DLoss.train_ops.
  repeat (preserves_step;
          try match goal with a : (_ * _)%type |- _ => destruct a end).
Qed.

Lemma generator_train_ops_calls generator discriminator optimizer_generator
    real_inputs device batch_size st loss :
  (GLoss.train_ops generator discriminator optimizer_generator
     real_inputs device batch_size st).1 = Ok loss ->
  optimizer_calls
    (GLoss.train_ops generator discriminator optimizer_generator
       real_inputs device batch_size st).2
  = optimizer_calls st
    ++ [(opt_name optimizer_generator, zero_grad_method);
        (opt_name optimizer_generator, step_method)].
Proof.
  unfold GLoss.train_ops. follow_run.
  intros _. rewrite <- app_assoc. reflexivity.
Qed.

Lemma discriminator_train_ops_calls generator discriminator
    optimizer_discriminator real_inputs device batch_size st loss :
  (DLoss.train_ops generator discriminator optimizer_discriminator
     real_inputs device batch_size st).1 = Ok loss ->
  optimizer_calls
    (DLoss.train_ops generator discriminator optimizer_discriminator
       real_inputs device batch_size st).2
  = optimizer_calls st
    ++ [(opt_name optimizer_discriminator, zero_grad_method);
        (opt_name optimizer_discriminator, step_method)].
Proof.
  unfold DLoss.train_ops. follow_run.
  intros _. rewrite <- app_assoc. reflexivity.
Qed.

(** C7: each [train_ops] leaves the parameter values of the other model as
    they were, and calls no optimizer but its own.  The optimizer handed to
    the generator loss holds generator parameters only, the one handed to
    the discriminator loss discriminator parameters only; a run that
    returns a loss has called [zero_grad] and then [step] on that optimizer
    and nothing else. *)
Theorem train_ops_frame
    (generator : G.t) (discriminator : D.t)
    (optimizer_generator optimizer_discriminator : optimizer)
    (real_inputs : sym) (device : string) (batch_size : Z) (st : store) :
  (forall p, p ∈ param_group optimizer_generator -> p.1 = Generator) ->
  (forall p, p ∈ param_group optimizer_discriminator ->
             p.1 = Discriminator) ->
  let run_g := GLoss.train_ops generator discriminator optimizer_generator
                 real_inputs device batch_size st in
  let run_d := DLoss.train_ops generator discriminator
                 optimizer_discriminator real_inputs device batch_size st in
  only_touches (opt_name optimizer_generator) Discriminator st run_g.2
  /\ only_touches (opt_name optimizer_discriminator) Generator st run_d.2
  /\ (forall loss, run_g.1 = Ok loss ->
        optimizer_calls run_g.2
        = optimizer_calls st
          ++ [(opt_name optimizer_generator, zero_grad_method);
              (opt_name optimizer_generator, step_method)])
  /\ (forall loss, run_d.1 = Ok loss ->
        optimizer_calls run_d.2
        = optimizer_calls st
          ++ [(opt_name optimizer_discriminator, zero_grad_method);
              (opt_name optimizer_discriminator, step_method)]).
Proof.
  intros Hg Hd run_g run_d. subst run_g run_d.
  split; [|split; [|split]].
  - apply generator_train_ops_preserves.
    intros p Hp. rewrite (Hg p Hp). discriminate.
  - apply discriminator_train_ops_preserves.
    intros p Hp. rewrite (Hd p Hp). discriminate.
  - apply generator_train_ops_calls.
  - apply discriminator_train_ops_calls.
Qed.

Lemma generator_parameters_owner g p :
  p ∈ generator_parameters g -> p.1 = Generator.
Proof.
  unfold generator_parameters. intros Hp.
  apply list_elem_of_fmap in Hp. destruct Hp as (name & -> & _). reflexivity.
Qed.

Lemma discriminator_parameters_owner d p :
  p ∈ discriminator_parameters d -> p.1 = Discriminator.
Proof.
  unfold discriminator_parameters. intros Hp.
  apply list_elem_of_fmap in Hp. destruct Hp as (name & -> & _). reflexivity.
Qed.

Lemma train_ops_frame_witness :
  exists (g : G.t) (d : D.t),
    network_generator 33 = Some g /\ network_discriminator 129 = Some d
    /\ let optimizer_generator :=
         Adam "optimizer_generator" (generator_parameters g) in
       let optimizer_discriminator :=
         Adam "optimizer_discriminator" (discriminator_parameters d) in
       let real_inputs := mkSym [64; 1; 32; 32] (Input "real_inputs") in
       let st := initial_store g d in
       let run_g := GLoss.train_ops g d optimizer_generator real_inputs
                      "cpu" 64 st in
       let run_d := DLoss.train_ops g d optimizer_discriminator real_inputs
                      "cpu" 64 st in
       only_touches "optimizer_generator" Discriminator st run_g.2
       /\ only_touches "optimizer_discriminator" Generator st run_d.2
       /\ (forall loss, run_g.1 = Ok loss ->
             optimizer_calls run_g.2
             = optimizer_calls st
               ++ [("optimizer_generator", zero_grad_method);
                   ("optimizer_generator", step_method)])
       /\ (forall loss, run_d.1 = Ok loss ->
             optimizer_calls run_d.2
             = optimizer_calls st
               ++ [("optimizer_discriminator", zero_grad_method);
                   ("optimizer_discriminator", step_method)]).
Proof.
  do 2 eexists.
  split; [vm_compute; reflexivity|]. split; [vm_compute; reflexivity|].
  match goal with
  | |- let og := Adam _ (generator_parameters ?g) in
       let od := Adam _ (discriminator_parameters ?d) in _ =>
      intros og od x st;
      apply (train_ops_frame g d og od x "cpu" 64 st)
  end.
  - intros p Hp. exact (generator_parameters_owner _ p Hp).
  - intros p Hp. exact (discriminator_parameters_owner _ p Hp).
Defined.

(** One training step of each loss on the models of the notebook: the
    generator step moves a generator parameter and leaves a discriminator
    parameter at its initial value, the discriminator step does the
    opposite. *)
Example train_ops_on_network :
  exists (g : G.t) (d : D.t),
    network_generator 33 = Some g /\ network_discriminator 129 = Some d
    /\ let real_inputs := mkSym [64; 1; 32; 32] (Input "real_inputs") in
       let st := initial_store g d in
       let run_g :=
         GLoss.train_ops g d
           (Adam "optimizer_generator" (generator_parameters g))
           real_inputs "cpu" 64 st in
       let run_d :=
         DLoss.train_ops g d
           (Adam "optimizer_discriminator" (discriminator_parameters d))
           real_inputs "cpu" 64 st in
       (exists loss,
           run_g.1 = Ok loss
           /\ values run_g.2 !! (Generator, "encoder_fc.weight")
              = Some (Stepped "optimizer_generator" Initial [loss])
           /\ values run_g.2 !! (Discriminator, "model.3.weight")
              = Some Initial)
       /\ (exists loss,
              run_d.1 = Ok loss
              /\ values run_d.2 !! (Discriminator, "model.3.weight")
                 = Some (Stepped "optimizer_discriminator" Initial [loss])
              /\ values run_d.2 !! (Generator, "encoder_fc.weight")
                 = Some Initial).
Proof.
  do 2 eexists.
  split; [vm_compute; reflexivity|]. split; [vm_compute; reflexivity|].
  split; eexists; (split; [vm_compute; reflexivity|]);
    split; vm_compute; reflexivity.
Qed.

(** ** The script: which calls are made, and where exceptions go *)

Lemma quiet_log_app evs1 evs2 :
  quiet_log (evs1 ++ evs2) = quiet_log evs1 ++ quiet_log evs2.
Proof. apply map_app. Qed.

Lemma runs_sret {A : Type} (a : A) : runs (sret a) [] (fun x => x = a).
Proof.
  intros l. exists []. simpl. rewrite app_nil_r.
  repeat split. intros a' [= <-]. reflexivity.
Qed.

Lemma runs_perform env ev : runs (perform env ev) [ev] (fun _ => True).
Proof.
  intros l. unfold perform. destruct (oracle env l ev) as [e|]; simpl.
  - exists [(ev, Some e)]. split; [reflexivity|]. split; [|discriminate].
    exists [], ev, []. split; reflexivity.
  - exists [(ev, None)]. split; [reflexivity|]. split; [reflexivity|auto].
Qed.

Lemma runs_bind {A B : Type} (c : script A) (k : A -> script B)
    evs1 evs2 (P : A -> Prop) (Q : B -> Prop) :
  runs c evs1 P -> (forall a, P a -> runs (k a) evs2 Q) ->
  runs (sbind c k) (evs1 ++ evs2) Q.
Proof.
  intros Hc Hk l. unfold sbind.
  destruct (Hc l) as (after1 & Hl & Hcont & Hpost).
  destruct (c l) as [[a|e] l']; simpl in *.
  - destruct (Hk a (Hpost a eq_refl) l') as (after2 & Hl2 & Hcont2 & Hpost2).
    exists (after1 ++ after2). split; [|split; [|exact Hpost2]].
    + rewrite Hl2, Hl, app_assoc. reflexivity.
    + subst after1. destruct ((k a l').1) as [b|e]; simpl in *.
      * subst after2. symmetry. apply quiet_log_app.
      * destruct Hcont2 as (p & ev & rest & -> & ->).
        exists (evs1 ++ p), ev, rest.
        rewrite quiet_log_app, <- !app_assoc. split; reflexivity.
  - exists after1. split; [exact Hl|]. split; [|discriminate].
    destruct Hcont as (p & ev & rest & -> & ->).
    exists p, ev, (rest ++ evs2). rewrite <- app_assoc. split; reflexivity.
Qed.

Lemma runs_weaken {A : Type} (c : script A) evs (P Q : A -> Prop) :
  (forall a, P a -> Q a) -> runs c evs P -> runs c evs Q.
Proof.
  intros HPQ Hc l. destruct (Hc l) as (after & Hl & Hcont & Hpost).
  exists after. repeat split; auto.
Qed.

Lemma runs_perform_all env evs :
  runs (perform_all env evs) evs (fun _ => True).
Proof.
  induction evs as [|ev evs IH]; simpl.
  - eapply runs_weaken; [|apply runs_sret]. auto.
  - apply (runs_bind _ _ [ev] evs (fun _ => True)).
    + apply runs_perform.
    + intros _ _. exact IH.
Qed.

Lemma runs_select_device env :
  runs (select_device env)
    ([LibCall "torch.cuda.is_available"]
     ++ (if cuda_is_available env then cuda_events else cpu_events)
     ++ report_events)
    (fun de => de = device_epochs (cuda_is_available env)).
Proof.
  unfold select_device.
  eapply runs_bind; [apply runs_perform|]. intros _ _.
  eapply (runs_bind _ _ _ _
            (fun de => de = device_epochs (cuda_is_available env))).
  - destruct (cuda_is_available env).
    + rewrite <- (app_nil_r cuda_events).
      eapply runs_bind; [apply runs_perform_all|]. intros _ _.
      apply runs_sret.
    + rewrite <- (app_nil_r cpu_events).
      eapply runs_bind; [apply runs_perform_all|]. intros _ _.
      apply runs_sret.
  - intros de ->. rewrite <- (app_nil_r report_events).
    eapply runs_bind; [apply runs_perform_all|]. intros _ _.
    apply runs_sret.
Qed.

Lemma runs_plot env epochs :
  runs (plot env epochs)
    (show_batch_events epochs ++ frames epochs ++ animate_events)
    (fun _ => True).
Proof.
  unfold plot.
  eapply runs_bind; [apply runs_perform_all|]. intros _ _.
  eapply runs_bind; [apply runs_perform_all|]. intros _ _.
  apply runs_perform_all.
Qed.

Lemma runs_after_guard env :
  runs (after_guard env) (after_guard_events (cuda_is_available env))
    (fun _ => True).
Proof.
  unfold after_guard, after_guard_events.
  do 6 (eapply runs_bind; [apply runs_perform_all|]; intros _ _).
  eapply runs_bind; [apply runs_select_device|]. intros de ->.
  destruct (cuda_is_available env); cbn [device_epochs fst snd];
    (eapply runs_bind; [apply runs_perform_all|]; intros _ _;
     apply runs_plot).
Qed.

(** The guard either lets its block's outcome through, or has caught an
    [ImportError] raised in the block and run the handler. *)
Lemma install_guard_outcome env l :
  (exists after,
      (install_guard env l).2 = l ++ after
      /\ continues after (install_guard env l).1 guard_body)
  \/ (exists pre ev e0 after,
         pre ++ [ev] `prefix_of` guard_body
         /\ is_ImportError e0 = true
         /\ (install_guard env l).2
            = l ++ quiet_log pre ++ [(ev, Some e0)] ++ after
         /\ continues after (install_guard env l).1 guard_handler).
Proof.
  unfold install_guard, try_except_ImportError.
  destruct (runs_perform_all env guard_body l) as (after & Hl & Hcont & _).
  destruct (perform_all env guard_body l) as [[[]|e] l']; cbn [fst snd continues] in *.
  - left. eauto.
  - destruct (is_ImportError e) eqn:Himp; cbv beta iota.
    + right. destruct Hcont as (p & ev & rest & Hbody & ->).
      destruct (runs_perform_all env guard_handler l')
        as (after' & Hl' & Hcont' & _).
      exists p, ev, e, after'. split; [|split; [exact Himp|split]].
      * exists rest. rewrite Hbody, <- app_assoc. reflexivity.
      * rewrite Hl', Hl, <- !app_assoc. reflexivity.
      * exact Hcont'.
    + left. exists after. cbn [fst snd continues]. auto.
Qed.

Lemma notebook_has_outcome env :
  notebook_outcome (cuda_is_available env)
    (notebook env []).2 (notebook env []).1.
Proof.
  unfold notebook, notebook_outcome, sbind.
  destruct (install_guard_outcome env [])
    as [(after & Hl & Hcont)
       |(pre & ev & e0 & after & Hpre & Himp & Hl & Hcont)];
    destruct (install_guard env []) as [[[]|e] l'];
    cbn [fst snd continues] in *; rewrite app_nil_l in Hl; subst l'.
  - left. subst after.
    destruct (runs_after_guard env (quiet_log guard_body))
      as (after' & Hl' & Hcont' & _).
    rewrite Hl'.
    destruct ((after_guard env (quiet_log guard_body)).1) as [[]|e];
      cbn [continues] in *.
    + subst after'. symmetry. apply quiet_log_app.
    + destruct Hcont' as (p & ev & rest & Hp & ->).
      exists (guard_body ++ p), ev, rest. rewrite Hp, quiet_log_app.
      rewrite <- !app_assoc. split; reflexivity.
  - left. destruct Hcont as (p & ev & rest & Hp & ->).
    exists p, ev, (rest ++ after_guard_events (cuda_is_available env)).
    rewrite Hp, <- app_assoc. split; reflexivity.
  - right. subst after.
    destruct (runs_after_guard env
                (quiet_log pre ++ [(ev, Some e0)] ++ quiet_log guard_handler))
      as (after' & Hl' & Hcont' & _).
    exists pre, ev, e0, (quiet_log guard_handler ++ after').
    split; [exact Hpre|]. split; [exact Himp|]. split.
    + rewrite Hl', <- !app_assoc. reflexivity.
    + destruct ((after_guard env _).1) as [[]|e]; cbn [continues] in *.
      * subst after'. symmetry. apply quiet_log_app.
      * destruct Hcont' as (p & ev' & rest & Hp & ->).
        exists (guard_handler ++ p), ev', rest. rewrite Hp, quiet_log_app.
        rewrite <- !app_assoc. split; reflexivity.
  - right. exists pre, ev, e0, after.
    split; [exact Hpre|]. split; [exact Himp|]. split; [reflexivity|].
    destruct Hcont as (p & ev' & rest & Hp & ->).
    exists p, ev', (rest ++ after_guard_events (cuda_is_available env)).
    rewrite Hp, <- app_assoc. split; reflexivity.
Qed.

(** ** Exceptions *)


Section MethodsRaise.
Context {tensor : Type} `{Torch tensor}.





End MethodsRaise.














(** ** The order of the steps *)


Lemma events_quiet_log evs : map fst (quiet_log evs) = evs.
Proof.
  unfold quiet_log. rewrite map_map. apply map_id.
Qed.

Lemma continues_events {A : Type} after (r : result A) evs :
  continues after r evs ->
  map fst after `prefix_of` evs
  /\ (forall a, r = Ok a -> map fst after = evs).
Proof.
  destruct r as [a|e]; cbn [continues].
  - intros ->. rewrite events_quiet_log. split; [reflexivity|auto].
  - intros (p & ev & rest & -> & ->). split; [|discriminate].
    rewrite map_app, events_quiet_log. exists rest.
    rewrite <- app_assoc. reflexivity.
Qed.



Lemma after_guard_trainer_calls cuda :
  trainer_calls (after_guard_events cuda) = [TrainerCall "loader"].
Proof. destruct cuda; vm_compute; reflexivity. Qed.









(** * Further properties of the code *)

(** ** The side of the reconstruction *)

Lemma decoder_size_inv_step input_size nonlinearity s :
  decoder_size_inv input_size s -> G.decoder_cond input_size s = true ->
  decoder_size_inv input_size (G.decoder_body nonlinearity s).
Proof.
  destruct s as [[dec size] c]. intros (i & Hsize & _) Hcond.
  unfold G.decoder_cond in Hcond. apply Z.ltb_lt in Hcond.
  unfold G.decoder_body, decoder_size_inv. exists (S i). split.
  - subst size. replace (Z.of_nat (2 * S i)) with (Z.of_nat (2 * i) + 2)
      by lia.
    rewrite Z.pow_add_r by lia. reflexivity.
  - right. replace (2 * (S i - 1))%nat with (2 * i)%nat by lia.
    rewrite <- Hsize. exact Hcond.
Qed.

(** The decoder loop stops at the least power of 4 that is not below half
    the input size: for [input_size = 2 ^ (k + 1)] that is [2 ^ k] when [k]
    is even and [2 ^ (k + 1)] when [k] is odd. *)
Lemma decoder_final_size fuel (k : nat) step_channels nonlinearity dec size c :
  while fuel (G.decoder_cond (2 ^ Z.of_nat (S k)))
    (G.decoder_body nonlinearity) (G.decoder_init step_channels)
  = Some (dec, size, c) ->
  size = if Nat.even k then 2 ^ Z.of_nat k else 2 ^ Z.of_nat (S k).
Proof.
  intros Hrun.
  assert (Hinit : decoder_size_inv (2 ^ Z.of_nat (S k))
                    (G.decoder_init step_channels)).
  { exists 0%nat. split; [reflexivity|left; reflexivity]. }
  destruct (while_invariant _ _ _
              (fun s => decoder_size_inv_step _ nonlinearity s)
              _ _ _ Hinit Hrun) as [(i & Hsize & Hprev) Hcond].
  unfold G.decoder_cond in Hcond. apply Z.ltb_ge in Hcond.
  assert (Hhalf : 2 ^ Z.of_nat (S k) / 2 = 2 ^ Z.of_nat k).
  { pose proof (pow2_pos k). rewrite pow2_succ.
    Z.div_mod_to_equations. lia. }
  rewrite Hhalf in Hcond, Hprev. subst size.
  apply Z.pow_le_mono_r_iff in Hcond; [|lia|lia].
  assert (Hi : i = 0%nat \/ (2 * (i - 1) < k)%nat).
  { destruct Hprev as [Hz|Hlt]; [left; exact Hz|right].
    apply Z.pow_lt_mono_r_iff in Hlt; lia. }
  destruct (Nat.even k) eqn:Hk.
  - apply Nat.even_spec in Hk. destruct Hk as [m ->].
    f_equal. lia.
  - assert (Hodd : Nat.odd k = true)
      by (rewrite <- Nat.negb_even, Hk; reflexivity).
    apply Nat.odd_spec in Hodd. destruct Hodd as [m ->].
    f_equal. lia.
Qed.

(** [forward] in training mode for [input_size = 2 ^ (k + 1)]: what it
    returns, with the side of the reconstruction. *)
Lemma generator_forward_pow2
    (k fuel : nat) (encoding_dims input_channels step_channels n : Z)
    (nonlinearity : module) (x : sym) :
  0 < step_channels ->
  shape_preserving nonlinearity ->
  0 <= n -> n <> 1 ->
  (enough_fuel (2 ^ Z.of_nat (S k)) <= fuel)%nat ->
  shape x = [n; input_channels; 2 ^ Z.of_nat (S k); 2 ^ Z.of_nat (S k)] ->
  exists (g : G.t) (recon encoding : sym) (dims dims' : list Z),
    G.__init__ fuel encoding_dims (2 ^ Z.of_nat (S k)) input_channels
      step_channels nonlinearity = Some g
    /\ G.forward g x = Ok (Tuple2 recon encoding)
    /\ shape encoding = [n; encoding_dims]
    /\ term encoding = Call "encoder_fc" (View dims (Call "encoder" (term x)))
    /\ term recon
       = Call "decoder" (View dims' (Call "decoder_fc" (term encoding)))
    /\ shape recon
       = (let side := if Nat.even k then 2 ^ Z.of_nat (S k)
                      else 2 * 2 ^ Z.of_nat (S k) in
          [n; input_channels; side; side]).
Proof.
  intros Hstep Hnl Hn0 Hn1 Hfuel Hx.
  destruct (generator_init_returns fuel encoding_dims (2 ^ Z.of_nat (S k))
              input_channels step_channels nonlinearity Hfuel) as [g Hg].
  exists g. pose proof Hg as Hinit. unfold G.__init__ in Hg.
  destruct (while fuel G.encoder_cond _ _) as [[[enc size] c]|] eqn:Hloop1;
    [|discriminate].
  destruct (while fuel (G.decoder_cond _) _ _) as [[[dec size'] c']|]
    eqn:Hloop2; [|discriminate].
  injection Hg as <-.
  destruct (encoder_shape true n nonlinearity Hnl Hn0 (fun _ => Hn1) fuel k
              input_channels step_channels enc size c Hstep Hloop1)
    as [Hc Hencoder].
  destruct (decoder_shape true n nonlinearity Hnl Hn0 (fun _ => Hn1) fuel
              (2 ^ Z.of_nat (S k)) input_channels step_channels dec size' c'
              Hstep Hloop2)
    as [_ Hdecoder].
  pose proof (decoder_final_size _ _ _ _ _ _ _ Hloop2) as Hsize'.
  destruct (forward_training_image
              {| G.encoding_dims := encoding_dims;
                 G.encoder := Sequential enc;
                 G.encoder_fc := Linear c encoding_dims;
                 G.decoder_fc := Linear encoding_dims step_channels;
                 G.decoder :=
                   Sequential
                     (dec ++ [ConvTranspose2d c' input_channels 5 2 2 1]);
                 G.training := true |} x n c encoding_dims step_channels
              _ _ eq_refl eq_refl eq_refl Hc Hstep Hx Hencoder Hdecoder)
    as [Hfwd _].
  do 4 eexists. split; [exact Hinit|]. split; [exact Hfwd|].
  split; [reflexivity|]. split; [reflexivity|]. split; [reflexivity|].
  cbn [shape]. subst size'.
  destruct (Nat.even k); cbv zeta.
  - rewrite pow2_succ. reflexivity.
  - reflexivity.
Qed.

(** X1: for positive [encoding_dims], [input_channels] and
    [step_channels] and an input size that is a power of two, [2 ^ K] with
    [K >= 1], in training mode and on a batch of [n] images, [n] other
    than 1, the reconstruction that [forward] returns is a square image batch whose
    side is the input size when [K] is odd (2, 8, 32, 128, ...) and twice
    the input size when [K] is even (4, 16, 64, ...): the decoder loop
    multiplies its size by 4, so it overshoots half the input size whenever
    that is not a power of 4. *)
Theorem reconstruction_side
    (K fuel : nat) (encoding_dims input_channels step_channels n : Z)
    (nonlinearity : module) (x : sym) :
  (1 <= K)%nat ->
  0 < encoding_dims -> 0 < input_channels -> 0 < step_channels ->
  shape_preserving nonlinearity ->
  0 <= n -> n <> 1 ->
  (enough_fuel (2 ^ Z.of_nat K) <= fuel)%nat ->
  shape x = [n; input_channels; 2 ^ Z.of_nat K; 2 ^ Z.of_nat K] ->
  exists (g : G.t) (recon encoding : sym),
    G.__init__ fuel encoding_dims (2 ^ Z.of_nat K) input_channels
      step_channels nonlinearity = Some g
    /\ G.forward g x = Ok (Tuple2 recon encoding)
    /\ shape recon
       = (let side := if Nat.odd K then 2 ^ Z.of_nat K
                      else 2 * 2 ^ Z.of_nat K in
          [n; input_channels; side; side]).
Proof.
  intros HK Hdims Hic Hstep Hnl Hn0 Hn1 Hfuel Hx.
  destruct K as [|k]; [lia|].
  destruct (generator_forward_pow2 k fuel encoding_dims input_channels
              step_channels n nonlinearity x Hstep Hnl Hn0 Hn1 Hfuel Hx)
    as (g & recon & encoding & dims & dims' & Hinit & Hfwd & _ & _ & _
        & Hside).
  exists g, recon, encoding. split; [exact Hinit|]. split; [exact Hfwd|].
  rewrite Nat.odd_succ. exact Hside.
Qed.

Lemma reconstruction_side_witness :
  exists (g : G.t) (recon encoding : sym),
    G.__init__ 40 128 (2 ^ Z.of_nat 4) 1 16 default_nonlinearity = Some g
    /\ G.forward g (mkSym [64; 1; 16; 16] (Input "x"))
       = Ok (Tuple2 recon encoding)
    /\ shape recon = [64; 1; 32; 32].
Proof.
  apply (reconstruction_side 4 40 128 1 16 64 default_nonlinearity
           (mkSym [64; 1; 16; 16] (Input "x"))).
  - lia.
  - lia.
  - lia.
  - lia.
  - apply LeakyReLU_shape_preserving.
  - lia.
  - lia.
  - vm_compute. lia.
  - reflexivity.
Defined.

(** Shapes whose last dimensions differ and are not 1 do not broadcast. *)
Lemma broadcast_shapes_last_differ n c a b :
  a <> b -> a <> 1 -> b <> 1 ->
  broadcast_shapes [n; c; a; a] [n; c; b; b] = None.
Proof.
  intros Hab Ha Hb. unfold broadcast_shapes. cbn [rev app broadcast_rev].
  rewrite !decide_False by assumption. reflexivity.
Qed.

(** X2: when the input size is [2 ^ K] with [K] even, [K >= 2] (the widths
    [encoding_dims], [input_channels] and [step_channels] positive), the
    reconstruction that [forward] returns in training mode cannot be scored
    against the batch it was computed from: the generator loss raises, from
    [mse_loss], because the reconstruction is twice as wide as the input.
    The generator and its loss fit together only for the input sizes whose
    half is a power of 4. *)
Theorem generator_loss_rejects_wide_reconstruction
    (K fuel : nat) (encoding_dims input_channels step_channels n : Z)
    (nonlinearity : module) (x : sym) :
  (2 <= K)%nat -> Nat.even K = true ->
  0 < encoding_dims -> 0 < input_channels -> 0 < step_channels ->
  shape_preserving nonlinearity ->
  0 <= n -> n <> 1 ->
  (enough_fuel (2 ^ Z.of_nat K) <= fuel)%nat ->
  shape x = [n; input_channels; 2 ^ Z.of_nat K; 2 ^ Z.of_nat K] ->
  exists (g : G.t) (recon encoding : sym),
    G.__init__ fuel encoding_dims (2 ^ Z.of_nat K) input_channels
      step_channels nonlinearity = Some g
    /\ G.forward g x = Ok (Tuple2 recon encoding)
    /\ forall dgz : sym,
        GLoss.forward x recon dgz
        = Raise (RuntimeError
                   "The size of tensor a must match the size of tensor b").
Proof.
  intros HK Heven Hdims Hic Hstep Hnl Hn0 Hn1 Hfuel Hx.
  destruct K as [|k]; [lia|].
  destruct (generator_forward_pow2 k fuel encoding_dims input_channels
              step_channels n nonlinearity x Hstep Hnl Hn0 Hn1 Hfuel Hx)
    as (g & recon & encoding & dims & dims' & Hinit & Hfwd & _ & _ & _
        & Hside).
  exists g, recon, encoding. split; [exact Hinit|]. split; [exact Hfwd|].
  intros dgz.
  rewrite Nat.even_succ, <- Nat.negb_even in Heven.
  apply negb_true_iff in Heven. rewrite Heven in Hside. cbv zeta in Hside.
  pose proof (pow2_pos (S k)) as Hpos.
  assert (Hbig : 2 <= 2 ^ Z.of_nat (S k))
    by (rewrite pow2_succ; pose proof (pow2_pos k); lia).
  unfold GLoss.forward. cbn [mse_loss Sym]. unfold sym_mse_loss.
  rewrite Hside, Hx, broadcast_shapes_last_differ by lia.
  reflexivity.
Qed.

Lemma generator_loss_rejects_wide_reconstruction_witness :
  exists (g : G.t) (recon encoding : sym),
    G.__init__ 40 128 (2 ^ Z.of_nat 4) 1 16 default_nonlinearity = Some g
    /\ G.forward g (mkSym [64; 1; 16; 16] (Input "x"))
       = Ok (Tuple2 recon encoding)
    /\ forall dgz : sym,
        GLoss.forward (mkSym [64; 1; 16; 16] (Input "x")) recon dgz
        = Raise (RuntimeError
                   "The size of tensor a must match the size of tensor b").
Proof.
  apply (generator_loss_rejects_wide_reconstruction 4 40 128 1 16 64
           default_nonlinearity (mkSym [64; 1; 16; 16] (Input "x"))).
  - lia.
  - reflexivity.
  - lia.
  - lia.
  - lia.
  - apply LeakyReLU_shape_preserving.
  - lia.
  - lia.
  - vm_compute. lia.
  - reflexivity.
Defined.

(** ** Batches of one *)

Lemma batch_norm2d_single_pixel c :
  batch_norm2d_shape true c [1; c; 1; 1]
  = Raise (ValueError "Expected more than 1 value per channel when training").
Proof. reflexivity. Qed.

Lemma batch_norm2d_single_image c h w :
  2 <= h -> 2 <= w ->
  batch_norm2d_shape true c [1; c; h; w] = Ok [1; c; h; w].
Proof.
  intros Hh Hw. unfold batch_norm2d_shape, batch_norm_shape.
  rewrite verify_batch_size_ok by (intros _; simpl; nia).
  simpl. rewrite decide_True by reflexivity. reflexivity.
Qed.

Lemma encoder_single_inv_step nonlinearity input s :
  shape_preserving nonlinearity ->
  encoder_single_inv input s -> G.encoder_cond s = true ->
  encoder_single_inv input (G.encoder_body nonlinearity s).
Proof.
  destruct s as [[enc size] c]. intros Hnl Hinv Hcond.
  unfold G.encoder_cond in Hcond. apply Z.ltb_lt in Hcond.
  destruct Hinv as [(j & Hj & Hsize & Hshape)|[Hsmall _]]; [|lia].
  unfold G.encoder_body, encoder_single_inv.
  rewrite (sequential_shape_app _ _ _ _ _ Hshape).
  cbn [sequential_shape]. rewrite module_shape_Sequential.
  cbn [sequential_shape module_shape].
  rewrite conv2d_shape_4d by lia. cbn [bind].
  destruct j as [|[|[|j]]]; [lia| | |].
  - right. change (2 ^ Z.of_nat 1) with 2 in Hsize. subst size.
    change (conv_out 2 5 4 2) with 1. rewrite batch_norm2d_single_pixel.
    split; [|reflexivity]. Z.div_mod_to_equations. lia.
  - right. change (2 ^ Z.of_nat 2) with 4 in Hsize. subst size.
    change (conv_out 4 5 4 2) with 1. rewrite batch_norm2d_single_pixel.
    split; [|reflexivity]. Z.div_mod_to_equations. lia.
  - left. exists (S j). rewrite !pow2_succ in Hsize.
    pose proof (pow2_pos j) as Hpos. rewrite pow2_succ.
    assert (Hdiv : size / 4 = 2 * 2 ^ Z.of_nat j)
      by (Z.div_mod_to_equations; lia).
    assert (Hout : conv_out size 5 4 2 = 2 * 2 ^ Z.of_nat j)
      by (unfold conv_out; Z.div_mod_to_equations; lia).
    rewrite Hdiv, Hout.
    split; [lia|]. split; [reflexivity|].
    rewrite batch_norm2d_single_image by lia. cbn [bind].
    rewrite Hnl. reflexivity.
Qed.

(** [forward] in training mode on one image of side [2 ^ (k + 2)]. *)
Lemma generator_forward_single_image
    (k fuel : nat) (encoding_dims input_channels step_channels : Z)
    (nonlinearity : module) (x : sym) (g : G.t) :
  shape_preserving nonlinearity ->
  G.__init__ fuel encoding_dims (2 ^ Z.of_nat (S (S k))) input_channels
    step_channels nonlinearity = Some g ->
  shape x = [1; input_channels; 2 ^ Z.of_nat (S (S k));
             2 ^ Z.of_nat (S (S k))] ->
  G.training g = true
  /\ G.forward g x
     = Raise (ValueError
                "Expected more than 1 value per channel when training").
Proof.
  intros Hnl Hg Hx. unfold G.__init__ in Hg.
  destruct (while fuel G.encoder_cond _ _) as [[[enc size] c]|] eqn:Hloop1;
    [|discriminate].
  destruct (while fuel (G.decoder_cond _) _ _) as [[[dec size'] c']|];
    [|discriminate].
  injection Hg as <-. split; [reflexivity|].
  pose proof (pow2_pos k) as Hpos.
  assert (Hinit : encoder_single_inv (shape x)
                    (G.encoder_init (2 ^ Z.of_nat (S (S k))) input_channels
                       step_channels nonlinearity)).
  { left. exists (S k). split; [lia|].
    assert (Hhalf : 2 ^ Z.of_nat (S (S k)) / 2 = 2 ^ Z.of_nat (S k))
      by (rewrite (pow2_succ (S k)); pose proof (pow2_pos (S k));
          Z.div_mod_to_equations; lia).
    assert (Hout : conv_out (2 ^ Z.of_nat (S (S k))) 5 2 2
                   = 2 ^ Z.of_nat (S k))
      by (unfold conv_out; rewrite (pow2_succ (S k));
          pose proof (pow2_pos (S k)); Z.div_mod_to_equations; lia).
    split; [exact Hhalf|].
    rewrite Hx, Hhalf. cbn [sequential_shape]. rewrite module_shape_Sequential.
    cbn [sequential_shape module_shape].
    rewrite conv2d_shape_4d by (rewrite !pow2_succ; lia). cbn [bind].
    rewrite Hnl. cbn [bind]. rewrite Hout. reflexivity. }
  destruct (while_invariant _ _ _
              (fun s => encoder_single_inv_step nonlinearity (shape x) s Hnl)
              _ _ _ Hinit Hloop1) as [Hinv Hcond].
  unfold G.encoder_cond in Hcond. apply Z.ltb_ge in Hcond.
  destruct Hinv as [(j & Hj & Hsize & _)|[_ Hraise]].
  - exfalso. destruct j as [|j]; [lia|].
    rewrite pow2_succ in Hsize. pose proof (pow2_pos j). lia.
  - unfold G.forward. cbn [G.training G.encoder module_call Sym].
    unfold sym_module_call. rewrite module_shape_Sequential, Hraise.
    reflexivity.
Qed.

(** X3: a generator built with positive [encoding_dims], [input_channels]
    and [step_channels] for an input size [2 ^ K], [K >= 2], rejects
    every batch of a single image while it is in training mode: the last
    encoder block reduces the image to one pixel per channel, and its batch
    normalisation raises [ValueError] on one value per channel.  A training
    run whose last batch holds one image stops there. *)
Theorem single_image_batch_rejected
    (K fuel : nat) (encoding_dims input_channels step_channels : Z)
    (nonlinearity : module) (x : sym) :
  (2 <= K)%nat ->
  0 < encoding_dims -> 0 < input_channels -> 0 < step_channels ->
  shape_preserving nonlinearity ->
  (enough_fuel (2 ^ Z.of_nat K) <= fuel)%nat ->
  shape x = [1; input_channels; 2 ^ Z.of_nat K; 2 ^ Z.of_nat K] ->
  exists g : G.t,
    G.__init__ fuel encoding_dims (2 ^ Z.of_nat K) input_channels
      step_channels nonlinearity = Some g
    /\ G.training g = true
    /\ G.forward g x
       = Raise (ValueError
                  "Expected more than 1 value per channel when training").
Proof.
  intros HK Hdims Hic Hstep Hnl Hfuel Hx.
  destruct K as [|[|k]]; [lia|lia|].
  destruct (generator_init_returns fuel encoding_dims
              (2 ^ Z.of_nat (S (S k))) input_channels step_channels
              nonlinearity Hfuel) as [g Hg].
  exists g. split; [exact Hg|].
  exact (generator_forward_single_image k fuel encoding_dims input_channels
           step_channels nonlinearity x g Hnl Hg Hx).
Qed.

Lemma single_image_batch_rejected_witness :
  exists g : G.t,
    G.__init__ 70 128 (2 ^ Z.of_nat 6) 3 16 default_nonlinearity = Some g
    /\ G.training g = true
    /\ G.forward g (mkSym [1; 3; 64; 64] (Input "x"))
       = Raise (ValueError
                  "Expected more than 1 value per channel when training").
Proof.
  apply (single_image_batch_rejected 6 70 128 3 16 default_nonlinearity
           (mkSym [1; 3; 64; 64] (Input "x"))).
  - lia.
  - lia.
  - lia.
  - lia.
  - apply LeakyReLU_shape_preserving.
  - vm_compute. lia.
  - reflexivity.
Defined.

(** ** Sampling *)

Lemma decoder_block_any_batch training nonlinearity n c a :
  shape_preserving nonlinearity -> 0 <= n -> 1 <= a ->
  module_shape training
    (Sequential [ConvTranspose2d c (c * 4) 5 4 2 3; BatchNorm2d (c * 4);
                 nonlinearity])
    [n; c; a; a]
  = Ok [n; c * 4; a * 4; a * 4].
Proof.
  intros Hnl Hn Ha.
  assert (Hout : conv_transpose_out a 5 4 2 3 = a * 4)
    by (unfold conv_transpose_out; lia).
  rewrite module_shape_Sequential. cbn [sequential_shape module_shape].
  rewrite conv_transpose2d_shape_4d by lia. cbn [bind]. rewrite Hout.
  unfold batch_norm2d_shape, batch_norm_shape.
  rewrite verify_batch_size_ok by (intros _; simpl; nia).
  cbn [bind]. rewrite decide_True by reflexivity. cbn [bind].
  rewrite Hnl. reflexivity.
Qed.

Lemma decoder_inv_step_any_batch training nonlinearity n input_size
    step_channels s :
  shape_preserving nonlinearity -> 0 <= n ->
  decoder_inv training n step_channels s ->
  G.decoder_cond input_size s = true ->
  decoder_inv training n step_channels (G.decoder_body nonlinearity s).
Proof.
  destruct s as [[dec size] c]. intros Hnl Hn (Hc & Hsize & Hshape) _.
  unfold G.decoder_body, decoder_inv.
  split; [lia|]. split; [lia|].
  rewrite (sequential_shape_app _ _ _ _ _ Hshape).
  cbn [sequential_shape].
  rewrite decoder_block_any_batch by (assumption || lia). reflexivity.
Qed.

Lemma generator_sample_any_batch
    (fuel : nat) (encoding_dims input_size input_channels step_channels n : Z)
    (nonlinearity : module) (z : sym) (g : G.t) :
  0 < step_channels -> shape_preserving nonlinearity -> 0 <= n ->
  G.__init__ fuel encoding_dims input_size input_channels step_channels
    nonlinearity = Some g ->
  shape z = [n; encoding_dims] ->
  exists (r : sym) (h : Z),
    (forall training : bool, G.sample (G.train training g) z = Ok r)
    /\ G.forward (G.eval g) z = Ok (Single r)
    /\ shape r = [n; input_channels; h; h].
Proof.
  intros Hstep Hnl Hn0 Hg Hz. unfold G.__init__ in Hg.
  destruct (while fuel G.encoder_cond _ _) as [[[enc size] c]|];
    [|discriminate].
  destruct (while fuel (G.decoder_cond _) _ _) as [[[dec size'] c']|]
    eqn:Hloop; [|discriminate].
  injection Hg as <-.
  assert (Hdecoder : forall training,
             module_shape training
               (Sequential (dec ++ [ConvTranspose2d c' input_channels 5 2 2 1]))
               [n; step_channels; 1; 1]
             = Ok [n; input_channels; 2 * size'; 2 * size']).
  { intros training.
    assert (Hstart : decoder_inv training n step_channels
                       (G.decoder_init step_channels)).
    { unfold G.decoder_init, decoder_inv. auto with zarith. }
    destruct (while_invariant _ _ _
                (fun s => decoder_inv_step_any_batch training nonlinearity n
                            input_size step_channels s Hnl Hn0)
                _ _ _ Hstart Hloop) as [(Hc & Hsize & Hshape) _].
    rewrite module_shape_Sequential.
    rewrite (sequential_shape_app _ _ _ _ _ Hshape).
    cbn [sequential_shape module_shape].
    assert (Hout : conv_transpose_out size' 5 2 2 1 = 2 * size')
      by (unfold conv_transpose_out; lia).
    rewrite conv_transpose2d_shape_4d by lia. rewrite Hout. reflexivity. }
  assert (Hsample : forall training,
             G.sample
               (G.train training
                  {| G.encoding_dims := encoding_dims;
                     G.encoder := Sequential enc;
                     G.encoder_fc := Linear c encoding_dims;
                     G.decoder_fc := Linear encoding_dims step_channels;
                     G.decoder :=
                       Sequential
                         (dec ++ [ConvTranspose2d c' input_channels 5 2 2 1]);
                     G.training := true |}) z
             = Ok (mkSym [n; input_channels; 2 * size'; 2 * size']
                     (Call "decoder"
                        (View [-1; step_channels; 1; 1]
                           (Call "decoder_fc" (term z)))))).
  { intros training.
    apply (sample_latent _ z n encoding_dims step_channels);
      [reflexivity|exact Hstep|exact Hz|apply Hdecoder]. }
  do 2 eexists. split; [exact Hsample|].
  split; [|reflexivity].
  unfold G.forward, G.eval. cbn [G.train G.training].
  change (bind (G.sample (G.train false
            {| G.encoding_dims := encoding_dims;
               G.encoder := Sequential enc;
               G.encoder_fc := Linear c encoding_dims;
               G.decoder_fc := Linear encoding_dims step_channels;
               G.decoder :=
                 Sequential
                   (dec ++ [ConvTranspose2d c' input_channels 5 2 2 1]);
               G.training := true |}) z)
            (fun r => Ok (Single r)) = Ok (Single
              (mkSym [n; input_channels; 2 * size'; 2 * size']
                 (Call "decoder"
                    (View [-1; step_channels; 1; 1]
                       (Call "decoder_fc" (term z))))))).
  rewrite Hsample. reflexivity.
Qed.

(** X4: [sample] decodes every latent batch.  For a generator built by the
    constructor with positive [encoding_dims], [input_channels] and
    [step_channels], for any input size, a latent batch of shape
    [(n, encoding_dims)] with any [n >= 0], a batch of one included, is
    decoded into a batch of [n] square images with [input_channels]
    channels, in training mode as well as in evaluation mode: the batch
    normalisations of the decoder see at least 16 values per channel.  In
    evaluation mode [forward] returns that batch. *)
Theorem sample_decodes_every_latent_batch
    (fuel : nat) (encoding_dims input_size input_channels step_channels n : Z)
    (nonlinearity : module) (z : sym) :
  0 < encoding_dims -> 0 < input_channels -> 0 < step_channels ->
  shape_preserving nonlinearity -> 0 <= n ->
  (enough_fuel input_size <= fuel)%nat ->
  shape z = [n; encoding_dims] ->
  exists (g : G.t) (r : sym) (h : Z),
    G.__init__ fuel encoding_dims input_size input_channels step_channels
      nonlinearity = Some g
    /\ (forall training : bool, G.sample (G.train training g) z = Ok r)
    /\ G.forward (G.eval g) z = Ok (Single r)
    /\ shape r = [n; input_channels; h; h].
Proof.
  intros Hdims Hic Hstep Hnl Hn0 Hfuel Hz.
  destruct (generator_init_returns fuel encoding_dims input_size
              input_channels step_channels nonlinearity Hfuel) as [g Hg].
  destruct (generator_sample_any_batch fuel encoding_dims input_size
              input_channels step_channels n nonlinearity z g Hstep Hnl Hn0
              Hg Hz) as (r & h & Hsample & Hforward & Hshape).
  exists g, r, h. auto.
Qed.

Lemma sample_decodes_every_latent_batch_witness :
  exists (g : G.t) (r : sym) (h : Z),
    G.__init__ 40 128 32 1 16 default_nonlinearity = Some g
    /\ (forall training : bool,
          G.sample (G.train training g) (mkSym [1; 128] (Input "noise"))
          = Ok r)
    /\ G.forward (G.eval g) (mkSym [1; 128] (Input "noise")) = Ok (Single r)
    /\ shape r = [1; 1; h; h].
Proof.
  apply (sample_decodes_every_latent_batch 40 128 32 1 16 1
           default_nonlinearity (mkSym [1; 128] (Input "noise"))).
  - lia.
  - lia.
  - lia.
  - apply LeakyReLU_shape_preserving.
  - lia.
  - vm_compute. lia.
  - reflexivity.
Defined.

(** ** The width of the discriminator *)

(** X5: a discriminator for at most 33 input dimensions has no batch
    normalisation: its loop does not run, the model is one hidden layer and
    the logit layer, and it maps a batch of any size, one vector included,
    to one logit per example in training mode as well as in evaluation
    mode. *)
Theorem small_discriminator_has_no_batch_norm
    (fuel : nat) (input_dims n : Z) (nonlinearity : module)
    (training : bool) (x : sym) :
  (1 <= fuel)%nat ->
  1 <= input_dims <= 33 ->
  shape_preserving nonlinearity ->
  shape x = [n; input_dims] ->
  exists d : D.t,
    D.__init__ fuel input_dims nonlinearity = Some d
    /\ D.model d
       = Sequential
           [Sequential [Linear input_dims (input_dims / 2); nonlinearity];
            Linear (input_dims / 2) 1]
    /\ D.forward (D.train training d) x
       = Ok (mkSym [n; 1] (Call "model" (term x))).
Proof.
  intros Hfuel Hdims Hnl Hx.
  destruct fuel as [|fuel]; [lia|].
  unfold D.__init__, D.model_init. cbn [while].
  assert (Hcond : D.model_cond
                    ([Sequential [Linear input_dims (input_dims / 2);
                                  nonlinearity]], input_dims / 2) = false).
  { unfold D.model_cond. apply Z.ltb_ge. Z.div_mod_to_equations. lia. }
  rewrite Hcond. eexists. split; [reflexivity|]. split; [reflexivity|].
  unfold D.forward. cbn [D.train D.training D.model module_call Sym].
  unfold sym_module_call. rewrite Hx.
  rewrite module_shape_Sequential. cbn [app sequential_shape].
  rewrite module_shape_Sequential. cbn [sequential_shape module_shape].
  rewrite linear_shape_2d. cbn [bind]. rewrite Hnl. cbn [bind].
  rewrite linear_shape_2d. reflexivity.
Qed.

Lemma small_discriminator_has_no_batch_norm_witness :
  exists d : D.t,
    D.__init__ 1 32 default_nonlinearity = Some d
    /\ D.model d
       = Sequential
           [Sequential [Linear 32 (32 / 2); default_nonlinearity];
            Linear (32 / 2) 1]
    /\ D.forward (D.train true d) (mkSym [1; 32] (Input "z"))
       = Ok (mkSym [1; 1] (Call "model" (Input "z"))).
Proof.
  apply (small_discriminator_has_no_batch_norm 1 32 1 default_nonlinearity
           true (mkSym [1; 32] (Input "z"))).
  - lia.
  - lia.
  - apply LeakyReLU_shape_preserving.
  - reflexivity.
Defined.

Lemma model_width_inv_step nonlinearity s :
  model_width_inv s -> D.model_cond s = true ->
  model_width_inv (D.model_body nonlinearity s).
Proof.
  destruct s as [model size]. unfold model_width_inv, D.model_cond.
  intros _ Hcond. apply Z.ltb_lt in Hcond. simpl.
  Z.div_mod_to_equations. lia.
Qed.

Lemma model_pow2_inv_step nonlinearity s :
  model_pow2_inv s -> D.model_cond s = true ->
  model_pow2_inv (D.model_body nonlinearity s).
Proof.
  destruct s as [model size]. unfold model_pow2_inv, D.model_cond.
  intros (j & Hj & Hsize) Hcond. apply Z.ltb_lt in Hcond. simpl.
  destruct j as [|j]; [lia|]. exists j.
  rewrite pow2_succ in Hsize. pose proof (pow2_pos j) as Hpos.
  split.
  - destruct (Nat.le_gt_cases 4 j) as [Hle|Hgt]; [exact Hle|exfalso].
    assert (Hsmall : 2 ^ Z.of_nat j <= 2 ^ Z.of_nat 3)
      by (apply Z.pow_le_mono_r; lia).
    change (2 ^ Z.of_nat 3) with 8 in Hsmall. lia.
  - subst size. Z.div_mod_to_equations. lia.
Qed.

(** X6: the discriminator halves its hidden width down to the threshold of
    16.  For [input_dims >= 1], the last layer is [Linear(size, 1)] with [size] at most 16; for 16
    or more input dimensions [size] is at least 8, and for a power of two
    from 32 on it is exactly 16. *)
Theorem discriminator_hidden_width
    (fuel : nat) (input_dims : Z) (nonlinearity : module) :
  1 <= input_dims ->
  (enough_fuel input_dims <= fuel)%nat ->
  exists (d : D.t) (layers : list module) (size : Z),
    D.__init__ fuel input_dims nonlinearity = Some d
    /\ D.model d = Sequential (layers ++ [Linear size 1])
    /\ size <= 16
    /\ (16 <= input_dims -> 8 <= size)
    /\ (forall k : nat, (5 <= k)%nat -> input_dims = 2 ^ Z.of_nat k ->
                        size = 16).
Proof.
  intros Hpos Hfuel.
  destruct (discriminator_init_returns fuel input_dims nonlinearity Hfuel)
    as [d Hd].
  exists d. pose proof Hd as Hinit. unfold D.__init__ in Hd.
  destruct (while fuel D.model_cond _ _) as [[model size]|] eqn:Hloop;
    [|discriminate].
  injection Hd as <-. exists model, size.
  split; [exact Hinit|]. split; [reflexivity|].
  assert (Hexit : size <= 16).
  { destruct (while_invariant _ _ (fun _ => True) (fun _ _ _ => I)
                _ _ _ I Hloop) as [_ Hcond].
    unfold D.model_cond in Hcond. apply Z.ltb_ge in Hcond. exact Hcond. }
  split; [exact Hexit|]. split.
  - intros Hdims.
    refine (proj1 (while_invariant _ _ model_width_inv
                     (model_width_inv_step nonlinearity) _ _ _ _ Hloop)).
    unfold D.model_init, model_width_inv. Z.div_mod_to_equations. lia.
  - intros k Hk Hpow.
    assert (Hinv : model_pow2_inv (D.model_init input_dims nonlinearity)).
    { destruct k as [|k]; [lia|]. exists k. split; [lia|].
      subst input_dims. rewrite pow2_succ. pose proof (pow2_pos k).
      Z.div_mod_to_equations. lia. }
    destruct (while_invariant _ _ model_pow2_inv
                (model_pow2_inv_step nonlinearity) _ _ _ Hinv Hloop)
      as [(j & Hj & Hsize) _].
    assert (Hj4 : (j <= 4)%nat).
    { destruct (Nat.le_gt_cases j 4) as [Hle|Hgt]; [exact Hle|exfalso].
      assert (Hbig : 2 ^ Z.of_nat 5 <= 2 ^ Z.of_nat j)
        by (apply Z.pow_le_mono_r; lia).
      change (2 ^ Z.of_nat 5) with 32 in Hbig. lia. }
    assert (j = 4%nat) by lia. subst j. exact Hsize.
Qed.

Lemma discriminator_hidden_width_witness :
  exists (d : D.t) (layers : list module) (size : Z),
    D.__init__ 200 128 default_nonlinearity = Some d
    /\ D.model d = Sequential (layers ++ [Linear size 1])
    /\ size <= 16
    /\ (16 <= 128 -> 8 <= size)
    /\ (forall k : nat, (5 <= k)%nat -> 128 = 2 ^ Z.of_nat k -> size = 16).
Proof.
  apply (discriminator_hidden_width 200 128 default_nonlinearity).
  - lia.
  - vm_compute. lia.
Defined.

(** ** Gradients and updates in a training step *)

Lemma lookup_foldr_delete {A : Type} (ps : list param) (m : gmap param A)
    (p : param) :
  foldr (fun q g => delete q g) m ps !! p
  = if decide (p ∈ ps) then None else m !! p.
Proof.
  induction ps as [|q ps IH]; cbn [foldr].
  - destruct (decide (p ∈ [])) as [Hin|_]; [|reflexivity].
    apply elem_of_nil in Hin. destruct Hin.
  - rewrite lookup_delete. destruct (decide (q = p)) as [->|Hne].
    + rewrite decide_True by left. reflexivity.
    + rewrite IH. destruct (decide (p ∈ ps)) as [Hin|Hnin].
      * rewrite decide_True by (right; exact Hin). reflexivity.
      * rewrite decide_False; [reflexivity|].
        intros Hin. apply elem_of_cons in Hin. destruct Hin; congruence.
Qed.

Lemma lookup_foldr_step_param (name : string) (g : gmap param (list expr))
    (ps : list param) (v : gmap param pvalue) (p : param) :
  NoDup ps ->
  foldr (step_param name g) v ps !! p
  = if decide (p ∈ ps) then
      match v !! p, g !! p with
      | Some old, Some grad => Some (Stepped name old grad)
      | _, _ => v !! p
      end
    else v !! p.
Proof.
  induction ps as [|q ps IH]; intros Hnodup; cbn [foldr].
  - destruct (decide (p ∈ [])) as [Hin|_]; [|reflexivity].
    apply elem_of_nil in Hin. destruct Hin.
  - apply NoDup_cons in Hnodup. destruct Hnodup as [Hq Hnodup].
    specialize (IH Hnodup).
    destruct (decide (p = q)) as [->|Hne].
    + rewrite decide_True by left.
      rewrite decide_False in IH by exact Hq.
      unfold step_param at 1. rewrite IH.
      destruct (v !! q) as [old|]; [|exact IH].
      destruct (g !! q) as [grad|]; [|exact IH].
      apply lookup_insert_eq.
    + rewrite step_param_other by exact Hne. rewrite IH.
      destruct (decide (p ∈ ps)) as [Hin|Hnin].
      * rewrite decide_True by (right; exact Hin). reflexivity.
      * rewrite decide_False; [reflexivity|].
        intros Hin. apply elem_of_cons in Hin. destruct Hin; congruence.
Qed.

Lemma generator_train_ops_store g d opt x device batch_size st loss :
  (GLoss.train_ops g d opt x device batch_size st).1 = Ok loss ->
  (GLoss.train_ops g d opt x device batch_size st).2 = step_store opt loss st.
Proof.
  unfold GLoss.train_ops. follow_run.
  unfold item. case_decide; [|discriminate]. intros [= <-]. reflexivity.
Qed.

Lemma discriminator_train_ops_store g d opt x device batch_size st loss :
  (DLoss.train_ops g d opt x device batch_size st).1 = Ok loss ->
  (DLoss.train_ops g d opt x device batch_size st).2 = step_store opt loss st.
Proof.
  unfold DLoss.train_ops. follow_run.
  unfold item. case_decide; [|discriminate]. intros [= <-]. reflexivity.
Qed.

Lemma step_store_value opt loss st p v :
  NoDup (param_group opt) ->
  p ∈ param_group opt -> values st !! p = Some v ->
  values (step_store opt loss st) !! p
  = Some (if reaches loss p then Stepped (opt_name opt) v [loss] else v).
Proof.
  intros Hnodup Hin Hv. unfold step_store. cbn [values].
  rewrite lookup_foldr_step_param by exact Hnodup.
  rewrite decide_True by exact Hin. rewrite Hv.
  rewrite map_lookup_imap, Hv. cbn [mbind option_bind].
  rewrite lookup_foldr_delete, decide_True by exact Hin.
  destruct (reaches loss p); reflexivity.
Qed.

Lemma step_store_grad opt loss st p v :
  p ∉ param_group opt -> values st !! p = Some v ->
  grads (step_store opt loss st) !! p
  = if reaches loss p then Some (default [] (grads st !! p) ++ [loss])
    else grads st !! p.
Proof.
  intros Hnin Hv. unfold step_store. cbn [grads].
  rewrite map_lookup_imap, Hv. cbn [mbind option_bind].
  rewrite lookup_foldr_delete, decide_False by exact Hnin. reflexivity.
Qed.

(** X7: a training step that returns a loss updates the parameters of its
    optimizer with the gradient of that loss alone.  Whatever gradients
    earlier back-propagations left in the store, each parameter of the
    optimizer that the loss reaches is stepped along [[loss]], and each one
    it does not reach keeps its value: [zero_grad] comes before
    [backward], so the gradients the other loss left behind never enter an
    update. *)
Theorem train_ops_steps_along_own_loss
    (generator : G.t) (discriminator : D.t)
    (optimizer_generator optimizer_discriminator : optimizer)
    (real_inputs : sym) (device : string) (batch_size : Z) (st : store) :
  NoDup (param_group optimizer_generator) ->
  NoDup (param_group optimizer_discriminator) ->
  let run_g := GLoss.train_ops generator discriminator optimizer_generator
                 real_inputs device batch_size st in
  let run_d := DLoss.train_ops generator discriminator
                 optimizer_discriminator real_inputs device batch_size st in
  (forall loss p v,
      run_g.1 = Ok loss ->
      p ∈ param_group optimizer_generator -> values st !! p = Some v ->
      values run_g.2 !! p
      = Some (if reaches loss p
              then Stepped (opt_name optimizer_generator) v [loss] else v))
  /\ (forall loss p v,
         run_d.1 = Ok loss ->
         p ∈ param_group optimizer_discriminator ->
         values st !! p = Some v ->
         values run_d.2 !! p
         = Some (if reaches loss p
                 then Stepped (opt_name optimizer_discriminator) v [loss]
                 else v)).
Proof.
  intros Hg Hd run_g run_d. subst run_g run_d. split.
  - intros loss p v Hloss Hin Hv.
    rewrite (generator_train_ops_store _ _ _ _ _ _ _ _ Hloss).
    apply step_store_value; assumption.
  - intros loss p v Hloss Hin Hv.
    rewrite (discriminator_train_ops_store _ _ _ _ _ _ _ _ Hloss).
    apply step_store_value; assumption.
Qed.

(** X8: back-propagation does not stop at the model being trained.  A
    training step that returns a loss appends that loss to the gradient of
    every stored parameter outside its optimizer that the loss was computed
    from, and resets none of them: the encodings are not detached, so the
    discriminator step leaves a gradient on the encoder, and the generator
    step leaves one on the discriminator. *)
Theorem train_ops_leaves_gradients_elsewhere
    (generator : G.t) (discriminator : D.t)
    (optimizer_generator optimizer_discriminator : optimizer)
    (real_inputs : sym) (device : string) (batch_size : Z) (st : store) :
  let run_g := GLoss.train_ops generator discriminator optimizer_generator
                 real_inputs device batch_size st in
  let run_d := DLoss.train_ops generator discriminator
                 optimizer_discriminator real_inputs device batch_size st in
  (forall loss p v,
      run_g.1 = Ok loss ->
      p ∉ param_group optimizer_generator -> values st !! p = Some v ->
      grads run_g.2 !! p
      = if reaches loss p then Some (default [] (grads st !! p) ++ [loss])
        else grads st !! p)
  /\ (forall loss p v,
         run_d.1 = Ok loss ->
         p ∉ param_group optimizer_discriminator ->
         values st !! p = Some v ->
         grads run_d.2 !! p
         = if reaches loss p then Some (default [] (grads st !! p) ++ [loss])
           else grads st !! p).
Proof.
  intros run_g run_d. subst run_g run_d. split.
  - intros loss p v Hloss Hnin Hv.
    rewrite (generator_train_ops_store _ _ _ _ _ _ _ _ Hloss).
    eapply step_store_grad; eassumption.
  - intros loss p v Hloss Hnin Hv.
    rewrite (discriminator_train_ops_store _ _ _ _ _ _ _ _ Hloss).
    eapply step_store_grad; eassumption.
Qed.


Lemma train_ops_steps_along_own_loss_witness :
  exists (g : G.t) (d : D.t) (loss : expr),
    network_generator 33 = Some g /\ network_discriminator 129 = Some d
    /\ let optimizer_generator :=
         Adam "optimizer_generator" (generator_parameters g) in
       let real_inputs := mkSym [64; 1; 32; 32] (Input "real_inputs") in
       let st :=
         mkStore (values (initial_store g d))
           {[ (Generator, "encoder_fc.weight") := [Input "stale"] ]} [] in
       let run_g := GLoss.train_ops g d optimizer_generator real_inputs
                      "cpu" 64 st in
       run_g.1 = Ok loss
       /\ values run_g.2 !! (Generator, "encoder_fc.weight")
          = Some (Stepped "optimizer_generator" Initial [loss]).
Proof.
  do 3 eexists.
  split; [vm_compute; reflexivity|]. split; [vm_compute; reflexivity|].
  match goal with
  | |- let og := Adam _ (generator_parameters ?g) in
       let x := _ in
       let st := mkStore (values (initial_store _ ?d)) _ _ in _ =>
      intros og x st run_g;
      pose proof (proj1 (train_ops_steps_along_own_loss g d og
                           (Adam "optimizer_discriminator"
                              (discriminator_parameters d))
                           x "cpu" 64 st
                           ltac:(apply (bool_decide_unpack _); vm_compute;
                                 exact I)
                           ltac:(apply (bool_decide_unpack _); vm_compute;
                                 exact I))) as Hstep
  end.
  assert (Hloss : run_g.1 = Ok _) by (vm_compute; reflexivity).
  split; [exact Hloss|].
  refine (eq_trans (Hstep _ (Generator, "encoder_fc.weight") Initial Hloss
                      _ _) _).
  - apply (bool_decide_unpack _). vm_compute. exact I.
  - vm_compute. reflexivity.
  - vm_compute. reflexivity.
Defined.

Lemma train_ops_leaves_gradients_elsewhere_witness :
  exists (g : G.t) (d : D.t) (loss : expr),
    network_generator 33 = Some g /\ network_discriminator 129 = Some d
    /\ let optimizer_discriminator :=
         Adam "optimizer_discriminator" (discriminator_parameters d) in
       let real_inputs := mkSym [64; 1; 32; 32] (Input "real_inputs") in
       let st := initial_store g d in
       let run_d := DLoss.train_ops g d optimizer_discriminator real_inputs
                      "cpu" 64 st in
       run_d.1 = Ok loss
       /\ grads run_d.2 !! (Generator, "encoder_fc.weight") = Some [loss]
       /\ grads run_d.2 !! (Generator, "decoder_fc.weight") = None.
Proof.
  do 3 eexists.
  split; [vm_compute; reflexivity|]. split; [vm_compute; reflexivity|].
  match goal with
  | |- let od := Adam _ (discriminator_parameters ?d) in
       let x := _ in
       let st := initial_store ?g _ in _ =>
      intros od x st run_d;
      pose proof (proj2 (train_ops_leaves_gradients_elsewhere g d
                           (Adam "optimizer_generator"
                              (generator_parameters g))
                           od x "cpu" 64 st)) as Hgrad
  end.
  assert (Hloss : run_d.1 = Ok _) by (vm_compute; reflexivity).
  split; [exact Hloss|]. split.
  - refine (eq_trans (Hgrad _ (Generator, "encoder_fc.weight") Initial Hloss
                        _ _) _).
    + apply (bool_decide_unpack _). vm_compute. exact I.
    + vm_compute. reflexivity.
    + vm_compute. reflexivity.
  - refine (eq_trans (Hgrad _ (Generator, "decoder_fc.weight") Initial Hloss
                        _ _) _).
    + apply (bool_decide_unpack _). vm_compute. exact I.
    + vm_compute. reflexivity.
    + vm_compute. reflexivity.
Defined.


(** ** A training step that raises *)

Lemma generator_loss_scalar (x recon dgz loss : sym) :
  GLoss.forward x recon dgz = Ok loss -> shape loss = [].
Proof.
  unfold GLoss.forward.
  cbn [mse_loss binary_cross_entropy_with_logits tensor_iadd float_mul
       ones_like Sym].
  unfold sym_mse_loss, sym_bce_with_logits, sym_iadd, scalar.
  destruct (broadcast_shapes (shape recon) (shape x)); [|discriminate].
  cbn [bind shape]. case_decide; [|discriminate].
  cbn [bind shape]. case_decide; [|discriminate].
  cbn [bind]. intros [= <-]. reflexivity.
Qed.

Lemma discriminator_loss_scalar (dx dgz loss : sym) :
  DLoss.forward dx dgz = Ok loss -> shape loss = [].
Proof.
  unfold DLoss.forward.
  cbn [mse_loss binary_cross_entropy_with_logits tensor_iadd float_mul
       ones_like zeros_like Sym].
  unfold sym_bce_with_logits, sym_iadd, scalar.
  cbn [shape]. case_decide; [|discriminate].
  cbn [bind shape]. case_decide; [|discriminate].
  cbn [bind shape]. case_decide; [|discriminate].
  cbn [bind]. intros [= <-]. reflexivity.
Qed.

Lemma item_scalar (loss : sym) : shape loss = [] -> item loss = Ok (term loss).
Proof. intros Hsh. unfold item. rewrite Hsh. reflexivity. Qed.

(** X9: a training step that raises has updated nothing.  Whatever goes
    wrong in [train_ops] of either loss, the parameter values are those of
    before the call, the gradients of the parameters outside the optimizer
    are those of before the call, and the only optimizer call that may
    have been made is [zero_grad]: every statement that can raise comes
    before [optimizer.step()], and [loss.item()] cannot fail on the scalar
    that [forward] returns. *)
Theorem failed_train_ops_updates_nothing
    (generator : G.t) (discriminator : D.t)
    (optimizer_generator optimizer_discriminator : optimizer)
    (real_inputs : sym) (device : string) (batch_size : Z) (st : store) :
  let run_g := GLoss.train_ops generator discriminator optimizer_generator
                 real_inputs device batch_size st in
  let run_d := DLoss.train_ops generator discriminator
                 optimizer_discriminator real_inputs device batch_size st in
  let untouched (opt : optimizer) (st' : store) :=
    values st' = values st
    /\ (forall p, p ∉ param_group opt -> grads st' !! p = grads st !! p)
    /\ (optimizer_calls st' = optimizer_calls st
        \/ optimizer_calls st'
           = optimizer_calls st ++ [(opt_name opt, zero_grad_method)]) in
  (forall e, run_g.1 = Raise e -> untouched optimizer_generator run_g.2)
  /\ (forall e, run_d.1 = Raise e -> untouched optimizer_discriminator run_d.2).
Proof.
  intros run_g run_d untouched.
  assert (Hsame : forall opt, untouched opt st).
  { intros opt. split; [reflexivity|]. split; [reflexivity|]. left. reflexivity. }
  assert (Hzero : forall opt,
             untouched opt
               (mkStore (values st)
                  (foldr (fun p g => delete p g) (grads st) (param_group opt))
                  (optimizer_calls st ++ [(opt_name opt, zero_grad_method)]))).
  { intros opt. split; [reflexivity|]. split; [|right; reflexivity].
    intros p Hp. cbn [grads].
    rewrite lookup_foldr_delete, decide_False by exact Hp. reflexivity. }
  subst run_g run_d. split; intros e.
  - unfold GLoss.train_ops, sbind, lift, zero_grad, step, backward.
    destruct (G.forward generator real_inputs) as [out|]; cbn [fst snd];
      [|intros _; apply Hsame].
    destruct (unpack2 out) as [[recon encodings]|]; cbn [fst snd];
      [|intros _; apply Hsame].
    destruct (D.forward discriminator encodings) as [dgz|]; cbn [fst snd];
      [|intros _; apply Hzero].
    destruct (GLoss.forward real_inputs recon dgz) as [loss|] eqn:Hloss;
      cbn [fst snd]; [|intros _; apply Hzero].
    destruct (bool_decide _); cbn [fst snd]; [|intros _; apply Hzero].
    rewrite (item_scalar loss (generator_loss_scalar _ _ _ _ Hloss)).
    discriminate.
  - unfold DLoss.train_ops, sbind, lift, zero_grad, step, backward.
    destruct (G.forward generator real_inputs) as [out|]; cbn [fst snd];
      [|intros _; apply Hsame].
    destruct (unpack2 out) as [[recon encodings]|]; cbn [fst snd];
      [|intros _; apply Hsame].
    destruct (tensor_size real_inputs 0) as [n|]; cbn [fst snd];
      [|intros _; apply Hsame].
    destruct (randn n (G.encoding_dims generator)) as [noise|]; cbn [fst snd];
      [|intros _; apply Hsame].
    destruct (D.forward discriminator noise) as [dx|]; cbn [fst snd];
      [|intros _; apply Hzero].
    destruct (D.forward discriminator encodings) as [dgz|]; cbn [fst snd];
      [|intros _; apply Hzero].
    destruct (DLoss.forward dx dgz) as [loss|] eqn:Hloss;
      cbn [fst snd]; [|intros _; apply Hzero].
    destruct (bool_decide _); cbn [fst snd]; [|intros _; apply Hzero].
    rewrite (item_scalar loss (discriminator_loss_scalar _ _ _ Hloss)).
    discriminate.
Qed.


Lemma failed_train_ops_updates_nothing_witness :
  exists (g : G.t) (d : D.t) (e : exn),
    network_generator 33 = Some g
    /\ D.__init__ 129 64 default_nonlinearity = Some d
    /\ let optimizer_generator :=
         Adam "optimizer_generator" (generator_parameters g) in
       let real_inputs := mkSym [64; 1; 32; 32] (Input "real_inputs") in
       let st := initial_store g d in
       let run_g := GLoss.train_ops g d optimizer_generator real_inputs
                      "cpu" 64 st in
       run_g.1 = Raise e
       /\ values run_g.2 = values st
       /\ optimizer_calls run_g.2 = [("optimizer_generator", zero_grad_method)].
Proof.
  do 3 eexists.
  split; [vm_compute; reflexivity|]. split; [vm_compute; reflexivity|].
  match goal with
  | |- let og := Adam _ (generator_parameters ?g) in
       let x := _ in
       let st := initial_store _ ?d in _ =>
      intros og x st run_g;
      pose proof (proj1 (failed_train_ops_updates_nothing g d og
                           (Adam "optimizer_discriminator"
                              (discriminator_parameters d))
                           x "cpu" 64 st)) as Hfail
  end.
  assert (Hraise : run_g.1 = Raise _) by (vm_compute; reflexivity).
  split; [exact Hraise|].
  split; [exact (proj1 (Hfail _ Hraise))|].
  vm_compute. reflexivity.
Defined.


(** ** One training step of both losses, for every batch size *)











(** ** The script: what has happened before a call is made *)

Lemma after_guard_split cuda :
  after_guard_events cuda
  = before_training cuda ++ TrainerCall "loader" :: plot_events cuda.
Proof. destruct cuda; reflexivity. Qed.

Lemma in_log_event (l : log) ev x : (ev, x) ∈ l -> ev ∈ map fst l.
Proof.
  intros Hin. apply list_elem_of_fmap. exists (ev, x). split; [reflexivity|exact Hin].
Qed.

Lemma in_quiet_log ev evs : ev ∈ evs -> (ev, None) ∈ quiet_log evs.
Proof.
  intros Hin. unfold quiet_log. apply list_elem_of_fmap.
  exists ev. split; [reflexivity|exact Hin].
Qed.

Lemma elem_of_prefix_of {A : Type} (x : A) (l k : list A) :
  l `prefix_of` k -> x ∈ l -> x ∈ k.
Proof. intros [rest ->] Hin. apply elem_of_app. left. exact Hin. Qed.

Lemma not_elem_of_filter_nil (P : event -> bool) (ev : event) evs :
  filter (fun ev' => P ev' = true) evs = [] -> P ev = true -> ev ∉ evs.
Proof.
  intros Hnil HP Hin.
  assert (Hf : ev ∈ filter (fun ev' => P ev' = true) evs)
    by (apply list_elem_of_filter; split; assumption).
  rewrite Hnil in Hf. apply elem_of_nil in Hf. exact Hf.
Qed.

(** A call that was reached in a block without exception handling: every
    call before its first occurrence was made and did not raise. *)
Lemma continues_reached {A : Type} after (r : result A) pre ev post x :
  continues after r (pre ++ ev :: post) -> ev ∉ pre -> (ev, x) ∈ after ->
  quiet_log pre `prefix_of` after.
Proof.
  destruct r as [a|e]; cbn [continues].
  - intros -> _ _. rewrite quiet_log_app. exists (quiet_log (ev :: post)).
    reflexivity.
  - intros (p & ev' & rest & Heq & ->) Hnin Hin.
    assert (Hev : ev ∈ p ++ [ev']).
    { apply elem_of_app in Hin. apply elem_of_app. destruct Hin as [Hin|Hin].
      - left. unfold quiet_log in Hin. apply list_elem_of_fmap in Hin.
        destruct Hin as (ev'' & [= -> _] & Hin). exact Hin.
      - right. apply list_elem_of_singleton in Hin. injection Hin as -> _.
        apply list_elem_of_singleton. reflexivity. }
    destruct (prefix_weak_total pre p (pre ++ ev :: post)) as [[k ->]|[k ->]].
    + exists (ev :: post). reflexivity.
    + exists (ev' :: rest). exact Heq.
    + rewrite quiet_log_app, <- app_assoc. eexists. reflexivity.
    + destruct k as [|c k].
      * rewrite app_nil_r. eexists. reflexivity.
      * exfalso. apply Hnin. rewrite <- app_assoc in Heq.
        apply app_inv_head in Heq. injection Heq as -> _.
        apply elem_of_app in Hev. apply elem_of_app.
        destruct Hev as [Hev|Hev]; [left; exact Hev|].
        right. apply list_elem_of_singleton in Hev. subst ev. left.
Qed.

Lemma training_reached {A : Type} head after (r : result A) cuda a x :
  trainer_calls head = [] ->
  continues after r (head ++ after_guard_events cuda) ->
  (TrainerCall a, x) ∈ after ->
  a = "loader" /\ quiet_log (head ++ before_training cuda) `prefix_of` after.
Proof.
  intros Hhead Hcont Hin.
  assert (Ha : a = "loader").
  { pose proof (proj1 (continues_events _ _ _ Hcont)) as Hpre.
    pose proof (elem_of_prefix_of _ _ _ Hpre (in_log_event _ _ _ Hin)) as Hev.
    assert (Hf : TrainerCall a ∈ trainer_calls (head ++ after_guard_events cuda))
      by (apply list_elem_of_filter; split; [reflexivity|exact Hev]).
    unfold trainer_calls in Hf. rewrite filter_app in Hf.
    fold (trainer_calls head) in Hf.
    fold (trainer_calls (after_guard_events cuda)) in Hf.
    rewrite Hhead, after_guard_trainer_calls in Hf.
    apply list_elem_of_singleton in Hf. injection Hf as ->. reflexivity. }
  split; [exact Ha|]. subst a.
  rewrite after_guard_split, app_assoc in Hcont.
  eapply continues_reached; [exact Hcont| |exact Hin].
  apply (not_elem_of_filter_nil is_TrainerCall); [|reflexivity].
  rewrite filter_app. fold (trainer_calls head). rewrite Hhead.
  destruct cuda; vm_compute; reflexivity.
Qed.

(** X11: the trainer is called on the loader, and only after everything
    before it went through.  In every environment, if the log of a run of
    the notebook holds a call of the trainer (whether it returned or
    raised), then [torchgan] was imported without an exception, and every
    statement of the cells between the installation guard and that call
    (the imports, the seed, the dataset and its loader, the class
    definitions, the [network] dictionary, the choice of the device, the
    construction of the [Trainer]) was run without an exception. *)
Theorem trainer_called_after_successful_setup
    (env : environment) (a : string) (x : option exn) :
  (TrainerCall a, x) ∈ (notebook env []).2 ->
  a = "loader"
  /\ (Import "torchgan", None) ∈ (notebook env []).2
  /\ forall ev, ev ∈ before_training (cuda_is_available env) ->
                (ev, None) ∈ (notebook env []).2.
Proof.
  intros Hin. pose proof (notebook_has_outcome env) as Hout.
  destruct (notebook env []) as [r l]. cbn [fst snd] in *.
  destruct Hout
    as [Hcont|(pre & ev0 & e0 & after & Hpre & Himp & -> & Hcont)].
  - destruct (training_reached guard_body l r _ a x eq_refl Hcont Hin)
      as [-> Hquiet].
    split; [reflexivity|]. rewrite quiet_log_app in Hquiet. split.
    + eapply elem_of_prefix_of; [exact Hquiet|].
      apply elem_of_app. left. apply in_quiet_log. left.
    + intros ev Hev. eapply elem_of_prefix_of; [exact Hquiet|].
      apply elem_of_app. right. apply in_quiet_log. exact Hev.
  - assert (Hguard : forall ev, ev ∈ pre ++ [ev0] -> is_TrainerCall ev = false).
    { intros ev Hev. apply (elem_of_prefix_of _ _ _ Hpre) in Hev.
      unfold guard_body in Hev.
      repeat (apply elem_of_cons in Hev; destruct Hev as [->|Hev];
              [reflexivity|]).
      apply elem_of_nil in Hev. destruct Hev. }
    assert (Hafter : (TrainerCall a, x) ∈ after).
    { apply elem_of_app in Hin. destruct Hin as [Hin|Hin].
      - exfalso. apply in_log_event in Hin. rewrite events_quiet_log in Hin.
        specialize (Hguard (TrainerCall a)
                      ltac:(apply elem_of_app; left; exact Hin)).
        discriminate.
      - apply elem_of_app in Hin. destruct Hin as [Hin|Hin]; [|exact Hin].
        exfalso. apply list_elem_of_singleton in Hin. injection Hin as <- _.
        specialize (Hguard (TrainerCall a)
                      ltac:(apply elem_of_app; right; left)).
        discriminate. }
    destruct (training_reached guard_handler after r _ a x eq_refl Hcont
                Hafter) as [-> Hquiet].
    split; [reflexivity|]. rewrite quiet_log_app in Hquiet.
    split.
    + apply elem_of_app. right. apply elem_of_app. right.
      eapply elem_of_prefix_of; [exact Hquiet|].
      apply elem_of_app. left. apply in_quiet_log.
      unfold guard_handler. do 3 right. left.
    + intros ev Hev. apply elem_of_app. right. apply elem_of_app. right.
      eapply elem_of_prefix_of; [exact Hquiet|].
      apply elem_of_app. right. apply in_quiet_log. exact Hev.
Qed.

Lemma trainer_called_after_successful_setup_witness :
  (TrainerCall "loader", None) ∈ (notebook missing_torchgan []).2
  /\ (Import "torchgan", None) ∈ (notebook missing_torchgan []).2
  /\ (LibCall "dsets.MNIST", None) ∈ (notebook missing_torchgan []).2.
Proof.
  assert (Hin : (TrainerCall "loader", None)
                ∈ (notebook missing_torchgan []).2).
  { apply (list_elem_of_lookup_2 _ 55). vm_compute. reflexivity. }
  split; [exact Hin|].
  destruct (trainer_called_after_successful_setup missing_torchgan "loader"
              None Hin) as (_ & Himport & Hsetup).
  split; [exact Himport|].
  apply Hsetup. apply (list_elem_of_lookup_2 _ 27). vm_compute. reflexivity.
Defined.




(** ** Calls the classes reject *)

(** X13: [train_ops] needs the generator in training mode.  In evaluation
    mode [forward] returns the decoded batch alone, and the statement
    [recon, encodings = generator(real_inputs)] unpacks that tensor along
    its first dimension: for a generator built by the constructor with
    positive widths and put in evaluation mode, on a batch of [n] latent vectors with [n] other
    than 2, [train_ops] of both losses raises a [ValueError] before any
    optimizer is called, and leaves the store as it was. *)
Theorem eval_mode_generator_cannot_train
    (fuel : nat) (encoding_dims input_size input_channels step_channels n : Z)
    (nonlinearity : module) (g : G.t) (d : D.t)
    (optimizer_generator optimizer_discriminator : optimizer)
    (z : sym) (device : string) (batch_size : Z) (st : store) :
  0 < encoding_dims -> 0 < input_channels -> 0 < step_channels ->
  shape_preserving nonlinearity ->
  0 <= n -> n <> 2 ->
  G.__init__ fuel encoding_dims input_size input_channels step_channels
    nonlinearity = Some g ->
  shape z = [n; encoding_dims] ->
  exists msg,
    GLoss.train_ops (G.eval g) d optimizer_generator z device batch_size st
    = (Raise (ValueError msg), st)
    /\ DLoss.train_ops (G.eval g) d optimizer_discriminator z device
         batch_size st
       = (Raise (ValueError msg), st).
Proof.
  intros Hdims Hic Hstep Hnl Hn0 Hn2 Hg Hz.
  destruct (generator_sample_any_batch fuel encoding_dims input_size
              input_channels step_channels n nonlinearity z g Hstep Hnl Hn0
              Hg Hz) as (r & h & _ & Hforward & Hshape).
  eexists. unfold GLoss.train_ops, DLoss.train_ops, sbind, lift.
  rewrite Hforward. cbn [unpack2]. rewrite Hshape.
  rewrite decide_False by exact Hn2. split; reflexivity.
Qed.

Lemma eval_mode_generator_cannot_train_witness :
  exists (g : G.t) (d : D.t) (msg : string),
    network_generator 33 = Some g /\ network_discriminator 129 = Some d
    /\ let z := mkSym [64; 128] (Input "noise") in
       let st := initial_store g d in
       GLoss.train_ops (G.eval g) d
         (Adam "optimizer_generator" (generator_parameters g)) z "cpu" 64 st
       = (Raise (ValueError msg), st)
       /\ DLoss.train_ops (G.eval g) d
            (Adam "optimizer_discriminator" (discriminator_parameters d))
            z "cpu" 64 st
          = (Raise (ValueError msg), st).
Proof.
  do 2 eexists.
  assert (Hg : network_generator 33 = Some _) by (vm_compute; reflexivity).
  assert (Hd : network_discriminator 129 = Some _)
    by (vm_compute; reflexivity).
  match type of Hg with
  | _ = Some ?g =>
      match type of Hd with
      | _ = Some ?d =>
          destruct (eval_mode_generator_cannot_train 33 128 32 1 16 64
                      default_nonlinearity g d
                      (Adam "optimizer_generator" (generator_parameters g))
                      (Adam "optimizer_discriminator"
                         (discriminator_parameters d))
                      (mkSym [64; 128] (Input "noise")) "cpu" 64
                      (initial_store g d)
                      ltac:(lia) ltac:(lia) ltac:(lia)
                      (LeakyReLU_shape_preserving _)
                      ltac:(lia) ltac:(lia) Hg eq_refl) as [msg Hraise]
      end
  end.
  exists msg. split; [exact Hg|]. split; [exact Hd|]. exact Hraise.
Defined.

Lemma encoder_first_layer nonlinearity fuel input_size input_channels
    step_channels enc size c :
  while fuel G.encoder_cond (G.encoder_body nonlinearity)
    (G.encoder_init input_size input_channels step_channels nonlinearity)
  = Some (enc, size, c) ->
  exists rest,
    enc = Sequential [Conv2d input_channels step_channels 5 2 2; nonlinearity]
          :: rest.
Proof.
  intros Hrun.
  refine (proj1 (while_invariant _ _
                   (fun s : G.loop_state =>
                      exists rest,
                        s.1.1 = Sequential [Conv2d input_channels
                                              step_channels 5 2 2;
                                            nonlinearity] :: rest)
                   _ fuel _ (enc, size, c) _ Hrun)).
  - intros [[e s] ch] [rest Hrest] _. cbn [fst] in Hrest. subst e.
    cbn [G.encoder_body fst]. eexists. reflexivity.
  - exists []. reflexivity.
Qed.

Lemma model_first_layer nonlinearity fuel input_dims model size :
  while fuel D.model_cond (D.model_body nonlinearity)
    (D.model_init input_dims nonlinearity) = Some (model, size) ->
  exists rest,
    model = Sequential [Linear input_dims (input_dims / 2); nonlinearity]
            :: rest.
Proof.
  intros Hrun.
  refine (proj1 (while_invariant _ _
                   (fun s : D.loop_state =>
                      exists rest,
                        s.1 = Sequential [Linear input_dims (input_dims / 2);
                                          nonlinearity] :: rest)
                   _ fuel _ (model, size) _ Hrun)).
  - intros [m s] [rest Hrest] _. cbn [fst] in Hrest. subst m.
    cbn [D.model_body fst]. eexists. reflexivity.
  - exists []. reflexivity.
Qed.

Lemma linear_shape_mismatch i o batch m :
  m <> i ->
  linear_shape i o (batch ++ [m])
  = Raise (RuntimeError "mat1 and mat2 shapes cannot be multiplied").
Proof.
  intros Hm. unfold linear_shape. rewrite rev_app_distr. cbn [rev app].
  rewrite decide_False by exact Hm. reflexivity.
Qed.

(** X14: the models reject batches of the wrong width, whatever the mode.
    A generator built by the constructor raises a [RuntimeError] in
    [forward] (training mode) on an image batch whose number of channels
    is not [input_channels], and in [sample] on a batch whose last
    dimension is not [encoding_dims]; a discriminator raises one in
    [forward] on a batch whose last dimension is not [input_dims]: the
    first layer of each network keeps the width the constructor was
    given, however many layers the loops add after it. *)
Theorem models_reject_wrong_widths
    (fuel fuel' : nat)
    (encoding_dims input_size input_channels step_channels input_dims : Z)
    (nonlinearity nonlinearity' : module) (g : G.t) (d : D.t) :
  G.__init__ fuel encoding_dims input_size input_channels step_channels
    nonlinearity = Some g ->
  D.__init__ fuel' input_dims nonlinearity' = Some d ->
  (forall (x : sym) n c h w,
      shape x = [n; c; h; w] -> c <> input_channels ->
      exists msg, G.forward g x = Raise (RuntimeError msg))
  /\ (forall (training : bool) (z : sym) batch m,
         shape z = batch ++ [m] -> m <> encoding_dims ->
         exists msg,
           G.sample (G.train training g) z = Raise (RuntimeError msg))
  /\ (forall (training : bool) (x : sym) batch m,
         shape x = batch ++ [m] -> m <> input_dims ->
         exists msg,
           D.forward (D.train training d) x = Raise (RuntimeError msg)).
Proof.
  intros Hg Hd. unfold G.__init__ in Hg. unfold D.__init__ in Hd.
  destruct (while fuel G.encoder_cond _ _) as [[[enc size] c]|] eqn:Hloop1;
    [|discriminate].
  destruct (while fuel (G.decoder_cond _) _ _) as [[[dec size'] c']|];
    [|discriminate].
  destruct (while fuel' D.model_cond _ _) as [[model msize]|] eqn:Hloop2;
    [|discriminate].
  injection Hg as <-. injection Hd as <-.
  destruct (encoder_first_layer _ _ _ _ _ _ _ _ Hloop1) as [erest ->].
  destruct (model_first_layer _ _ _ _ _ Hloop2) as [mrest ->].
  split; [|split].
  - intros x n ch h w Hx Hch. eexists.
    unfold G.forward. cbn [G.training G.encoder module_call Sym].
    unfold sym_module_call. rewrite Hx.
    cbn [module_shape conv2d_shape].
    rewrite decide_False by exact Hch. reflexivity.
  - intros training z batch m Hz Hm. eexists.
    unfold G.sample.
    cbn [G.train G.training G.decoder_fc module_call Sym].
    unfold sym_module_call. rewrite Hz. cbn [module_shape].
    rewrite linear_shape_mismatch by exact Hm. reflexivity.
  - intros training x batch m Hx Hm. eexists.
    unfold D.forward. cbn [D.train D.training D.model module_call Sym].
    unfold sym_module_call. rewrite Hx.
    cbn [module_shape app].
    rewrite linear_shape_mismatch by exact Hm. reflexivity.
Qed.

Lemma models_reject_wrong_widths_witness :
  exists (g : G.t) (d : D.t),
    network_generator 33 = Some g /\ network_discriminator 129 = Some d
    /\ (exists msg,
           G.forward g (mkSym [64; 3; 32; 32] (Input "rgb"))
           = Raise (RuntimeError msg))
    /\ (exists msg,
           G.sample g (mkSym [64; 100] (Input "noise"))
           = Raise (RuntimeError msg))
    /\ (exists msg,
           D.forward d (mkSym [64; 100] (Input "noise"))
           = Raise (RuntimeError msg)).
Proof.
  do 2 eexists.
  assert (Hg : network_generator 33 = Some _) by (vm_compute; reflexivity).
  assert (Hd : network_discriminator 129 = Some _)
    by (vm_compute; reflexivity).
  split; [exact Hg|]. split; [exact Hd|].
  destruct (models_reject_wrong_widths _ _ _ _ _ _ _ _ _ _ _ Hg Hd)
    as (Hforward & Hsample & Hlogits).
  split; [|split].
  - apply (Hforward (mkSym [64; 3; 32; 32] (Input "rgb")) 64 3 32 32 eq_refl).
    lia.
  - apply (Hsample true (mkSym [64; 100] (Input "noise")) [64] 100 eq_refl).
    lia.
  - apply (Hlogits true (mkSym [64; 100] (Input "noise")) [64] 100 eq_refl).
    lia.
Defined.
